(** * Lexical retrieval and ranking engine of the card recommender

    A shallow embedding of [vector_store.py]: the BM25-based retriever
    ([LocalRetriever]) with its filter stage, score fusion, fuzzy
    de-duplication and top-k selection, and the process-wide retriever
    cache of [CreditCardVectorStore].

    Conventions of the embedding.
    - Text is ASCII text ([string]); [str.lower], [str.split] and
      [str.strip] are written out for ASCII.
    - The retriever reads a cell of the table only through [str(...)];
      a cell is therefore represented by the text [str] gives for it
      (the integer 500 is the cell "500").  A missing cell (NaN) is [None]
      until [fillna] replaces it.
    - Scores are Python floats in the source; here they are exact
      rationals ([Q]), so rounding is not modelled (the float sum of three
      keyword increments is 0.15000000000000002, here it is 15/100).
    - [rank_bm25.BM25Okapi] and [rapidfuzz.fuzz.partial_ratio] are
      third-party code; they enter through the interface [Lexical].
    - [search] and the two constructors give what the call returns when
      it returns.  A call can raise: [BM25Okapi] raises
      [ZeroDivisionError] on a corpus without any token, and
      [pd.read_csv] raises [EmptyDataError] on a file without a column.
      [search_outcome] and [init_outcome] say when; [None] is a raised
      exception. *)

From Stdlib Require Import ZArith QArith Qminmax List String Ascii Bool Sorted Lia.
From stdpp Require Import gmap strings list fin_maps.

Import ListNotations.
Local Open Scope string_scope.
Local Open Scope list_scope.

(** ** Python string primitives *)

Module Py.

(** [str.isspace] on ASCII: tab, LF, VT, FF, CR, FS, GS, RS, US, space. *)
Definition is_space (c : ascii) : bool :=
  let n := nat_of_ascii c in
  ((9 <=? n)%nat && (n <=? 13)%nat) || ((28 <=? n)%nat && (n <=? 32)%nat).

Definition lower_ascii (c : ascii) : ascii :=
  let n := nat_of_ascii c in
  if (65 <=? n)%nat && (n <=? 90)%nat then ascii_of_nat (n + 32) else c.

(** [s.lower()] *)
Fixpoint lower (s : string) : string :=
  match s with
  | EmptyString => EmptyString
  | String c t => String (lower_ascii c) (lower t)
  end.

(** [s.replace(old, new)] for a one-character [old]. *)
Fixpoint replace (old : ascii) (new : string) (s : string) : string :=
  match s with
  | EmptyString => EmptyString
  | String c t =>
      if Ascii.eqb c old then new ++ replace old new t
      else String c (replace old new t)
  end.

(** [sep.join(parts)] *)
Fixpoint join (sep : string) (parts : list string) : string :=
  match parts with
  | [] => EmptyString
  | [p] => p
  | p :: ps => p ++ sep ++ join sep ps
  end.

Fixpoint startswith (p s : string) : bool :=
  match p, s with
  | EmptyString, _ => true
  | String a p', String b s' => Ascii.eqb a b && startswith p' s'
  | String _ _, EmptyString => false
  end.

(** [needle in hay] *)
Fixpoint contains (needle hay : string) : bool :=
  startswith needle hay ||
  match hay with
  | EmptyString => false
  | String _ t => contains needle t
  end.

(** [s.split()]: maximal runs of non-whitespace characters.  [cur] is the
    run being read, reversed. *)
Fixpoint split_go (cur : list ascii) (s : string) : list string :=
  let flush (rest : list string) :=
    match cur with
    | [] => rest
    | _ => string_of_list_ascii (rev cur) :: rest
    end in
  match s with
  | EmptyString => flush []
  | String c t =>
      if is_space c then flush (split_go [] t) else split_go (c :: cur) t
  end.

Definition split (s : string) : list string := split_go [] s.

Fixpoint lstrip (s : string) : string :=
  match s with
  | String c t => if is_space c then lstrip t else s
  | EmptyString => EmptyString
  end.

Definition rev_string (s : string) : string :=
  string_of_list_ascii (rev (list_ascii_of_string s)).

Definition rstrip (s : string) : string := rev_string (lstrip (rev_string s)).

(** [s.strip()] *)
Definition strip (s : string) : string := rstrip (lstrip s).

Definition digit_of (c : ascii) : option Z :=
  let n := nat_of_ascii c in
  if (48 <=? n)%nat && (n <=? 57)%nat then Some (Z.of_nat (n - 48)) else None.

(** Digits of an integer literal after the first digit: a digit, or one
    underscore followed by a digit. *)
Fixpoint int_digits (acc : Z) (s : string) : option Z :=
  match s with
  | EmptyString => Some acc
  | String c t =>
      match digit_of c with
      | Some d => int_digits (10 * acc + d)%Z t
      | None =>
          if Ascii.eqb c "_" then
            match t with
            | String c' t' =>
                match digit_of c' with
                | Some d => int_digits (10 * acc + d)%Z t'
                | None => None
                end
            | EmptyString => None
            end
          else None
      end
  end.

(** The blanks [int] skips around a literal: tab, LF, VT, FF, CR and
    space.  (Unlike [str.strip], it does not skip FS, GS, RS and US.) *)
Definition is_int_space (c : ascii) : bool :=
  let n := nat_of_ascii c in
  ((9 <=? n)%nat && (n <=? 13)%nat) || (n =? 32)%nat.

Fixpoint int_lstrip (s : string) : string :=
  match s with
  | String c t => if is_int_space c then int_lstrip t else s
  | EmptyString => EmptyString
  end.

Definition int_strip (s : string) : string :=
  rev_string (int_lstrip (rev_string (int_lstrip s))).

(** The number of digit characters of a literal. *)
Fixpoint count_digits (s : string) : nat :=
  match s with
  | EmptyString => 0
  | String c t =>
      match digit_of c with
      | Some _ => S (count_digits t)
      | None => count_digits t
      end
  end.

(** [sys.int_info.default_max_str_digits]: a literal with more digits is a
    [ValueError]. *)
Definition max_str_digits : Z := 4300.

Definition int_unsigned (s : string) : option Z :=
  match s with
  | String c t =>
      match digit_of c with
      | Some d =>
          match int_digits d t with
          | Some n => if (max_str_digits <? Z.of_nat (count_digits s))%Z then None else Some n
          | None => None
          end
      | None => None
      end
  | EmptyString => None
  end.

(** [int(s)] in base ten; [None] stands for [ValueError]. *)
Definition int (s : string) : option Z :=
  match int_strip s with
  | String "+" t => int_unsigned t
  | String "-" t => option_map Z.opp (int_unsigned t)
  | t => int_unsigned t
  end.

(** [min(a, b)] on floats: [b] when [b < a], else [a]. *)
Definition min (a b : Q) : Q := if Qle_bool a b then a else b.

(** [max(a, b)] on integers. *)
Definition max (a b : Z) : Z := Z.max a b.

End Py.

(** ** Tables *)

(** A cell of a table; [None] is a missing value (NaN). *)
Definition cell := option string.

(** [str(x)] of a cell. *)
Definition str (x : cell) : string :=
  match x with
  | Some s => s
  | None => "nan"
  end.

(** A [pandas.DataFrame]: column names and rows, each row with its index
    label and one cell per column. *)
Record DataFrame := {
  columns : list string;
  rows : list (nat * list cell)
}.

(** A row as handed to a callback: a [pandas.Series] indexed by the column
    names. *)
Definition Series := list (string * cell).

Definition is_Some_b {A} (o : option A) : bool :=
  match o with
  | Some _ => true
  | None => false
  end.

(** [pd.DataFrame()] *)
Definition empty_frame : DataFrame := {| columns := []; rows := [] |}.

(** [df.empty]: some axis has length zero. *)
Definition empty (d : DataFrame) : bool :=
  match columns d, rows d with
  | _ :: _, _ :: _ => false
  | _, _ => true
  end.

(** [df.fillna(fill)] *)
Definition fillna (fill : string) (d : DataFrame) : DataFrame :=
  {| columns := columns d;
     rows := map (fun r => (fst r, map (fun x : cell => Some (default fill x)) (snd r)))
                 (rows d) |}.

(** [row.get(key, default)] *)
Fixpoint get (key : string) (dflt : cell) (row : Series) : cell :=
  match row with
  | [] => dflt
  | (c, v) :: rest => if String.eqb c key then v else get key dflt rest
  end.

(** [key in df.columns] *)
Definition has_column (key : string) (d : DataFrame) : bool :=
  existsb (String.eqb key) (columns d).

(** [df.iterrows()] *)
Definition iterrows (d : DataFrame) : list (nat * Series) :=
  map (fun r => (fst r, combine (columns d) (snd r))) (rows d).

(** [df[mask]] where the mask is [df.apply(p, axis=1)]. *)
Definition select (p : Series -> bool) (d : DataFrame) : DataFrame :=
  {| columns := columns d;
     rows := List.filter (fun r => p (combine (columns d) (snd r))) (rows d) |}.

(** [df.loc[i]] for a label: the row carrying it.  An absent label is a
    [KeyError] in pandas; [search] only asks for labels of the table. *)
Definition loc (d : DataFrame) (i : nat) : Series :=
  match List.find (fun r => Nat.eqb (fst r) i) (rows d) with
  | Some r => combine (columns d) (snd r)
  | None => []
  end.

(** [df.loc[labels]]: the rows of the labels, in the order of [labels]. *)
Definition loc_list (d : DataFrame) (labels : list nat) : DataFrame :=
  {| columns := columns d;
     rows := flat_map (fun i => List.filter (fun r => Nat.eqb (fst r) i) (rows d)) labels |}.

(** [df.head(n)], that is [df.iloc[:n]]: a negative [n] drops the last
    [-n] rows. *)
Definition head (n : Z) (d : DataFrame) : DataFrame :=
  {| columns := columns d;
     rows := if (0 <=? n)%Z then firstn (Z.to_nat n) (rows d)
             else firstn (length (rows d) - Z.to_nat (- n)) (rows d) |}.

(** The name a column gets from a renaming dictionary: [mapping.get(c, c)]. *)
Definition renamed (mapping : list (string * string)) (c : string) : string :=
  match List.find (fun kv => String.eqb (fst kv) c) mapping with
  | Some kv => snd kv
  | None => c
  end.

(** [df.rename(columns=mapping)] *)
Definition rename (mapping : list (string * string)) (d : DataFrame) : DataFrame :=
  {| columns := map (renamed mapping) (columns d);
     rows := rows d |}.

(** The table [pd.read_csv] gives for a file with this header and these
    records: the index is [RangeIndex(0, n)]. *)
Record Csv := {
  header : list string;
  records : list (list cell)
}.

(** [pd.read_csv] finds a column to parse; on a file without one it raises
    [EmptyDataError]. *)
Definition parsable (f : Csv) : bool :=
  match header f with
  | [] => false
  | _ :: _ => true
  end.

Definition read_csv (f : Csv) : DataFrame :=
  {| columns := header f;
     rows := combine (seq 0 (length (records f))) (records f) |}.

(** The index of the table is a [RangeIndex]: the labels are the row
    positions. *)
Definition range_indexed (d : DataFrame) : Prop :=
  map fst (rows d) = seq 0 (length (rows d)).

(** ** Third-party scoring *)

(** [bm25_get_scores corpus query i] is entry [i] of
    [BM25Okapi(corpus).get_scores(query)], an array with one score per
    document of [corpus]; [partial_ratio] is [rapidfuzz.fuzz.partial_ratio],
    a similarity between 0 and 100. *)
Class Lexical := {
  bm25_get_scores : list (list string) -> list string -> nat -> Q;
  partial_ratio : string -> string -> Q
}.

(** ** LocalRetriever *)

Module LocalRetriever.

Record t := {
  self_k : Z;
  self_df : DataFrame;
  self_bm25 : option (list (list string));
  self_corpus : list (list string)
}.

Definition _tokenize (text : string) : list string :=
  List.filter (fun t => negb (String.eqb t ""))
    (Py.split (Py.replace "-" " " (Py.replace "/" " " (Py.lower text)))).

Definition _row_text (row : Series) : string :=
  Py.join " " [
    str (get "Card Name" (get "card_name" (Some "") row) row);
    str (get "Description" (get "description" (Some "") row) row);
    str (get "Key Benefits" (get "key_benefits" (Some "") row) row);
    str (get "Tags" (get "tags" (Some "") row) row);
    str (get "Eligibility" (get "eligibility" (Some "") row) row);
    str (get "Bank Name" (get "bank_name" (Some "") row) row);
    str (get "Card Type" (get "card_type" (Some "") row) row)
  ].

(** The documents of a table: the tokens of each row's text. *)
Definition corpus_of (d : DataFrame) : list (list string) :=
  map (fun ir => _tokenize (_row_text (snd ir))) (iterrows d).

(** [BM25Okapi(corpus)] divides by the number of distinct words of the
    corpus: it raises [ZeroDivisionError] unless some document has a
    token. *)
Definition has_token (corpus : list (list string)) : bool :=
  existsb (fun doc => match doc with
                      | [] => false
                      | _ :: _ => true
                      end) corpus.

(** [LocalRetriever(df, k)] *)
Definition __init__ (df : option DataFrame) (k : Z) : t :=
  let d := match df with
           | Some d => if negb (empty d) then fillna "" d else empty_frame
           | None => empty_frame
           end in
  if negb (empty d) then
    let texts := map (fun ir => _row_text (snd ir)) (iterrows d) in
    let corpus := map _tokenize texts in
    {| self_k := k; self_df := d; self_bm25 := Some corpus; self_corpus := corpus |}
  else
    {| self_k := k; self_df := d; self_bm25 := None; self_corpus := [] |}.

(** A call [LocalRetriever(df, k)]: it raises when the index cannot be
    built. *)
Definition init_outcome (df : option DataFrame) (k : Z) : option t :=
  let self := __init__ df k in
  match self_bm25 self with
  | Some corpus => if has_token corpus then Some self else None
  | None => Some self
  end.

(** The fee of a cell: its integer value, or [10**9] when it does not
    parse. *)
Definition fee_val (x : cell) : Z :=
  match Py.int (Py.replace "," "" (str x)) with
  | Some n => n
  | None => (10 ^ 9)%Z
  end.

Definition bank_of (row : Series) : string :=
  str (get "Bank Name" (get "bank_name" (Some "") row) row).

Definition in_cats (cats : list string) (row : Series) : bool :=
  let blob := Py.lower (Py.join " " [
    str (get "Tags" (Some "") row);
    str (get "Key Benefits" (Some "") row);
    str (get "Description" (Some "") row)
  ]) in
  existsb (fun c => Py.contains c blob) cats.

Definition bank_step (bank : option string) (out : DataFrame) : DataFrame :=
  match bank with
  | Some b =>
      if negb (String.eqb b "") then
        let strict :=
          select (fun r => Py.contains (Py.lower b) (Py.lower (bank_of r))) out in
        if negb (empty strict) then strict else out
      else out
  | None => out
  end.

Definition fee_step (max_fee : option Z) (out : DataFrame) : DataFrame :=
  match max_fee with
  | Some m =>
      if negb (m =? 0)%Z then
        let col := if has_column "Annual Fee" out then "Annual Fee" else "annual_fee" in
        if has_column col out then
          select (fun r => (fee_val (get col (Some "") r) <=? m)%Z) out
        else out
      else out
  | None => out
  end.

(** The cell the fee filter reads for a row with these cells, when the
    table has a fee column. *)
Definition fee_field (d : DataFrame) (cells : list cell) : option cell :=
  let col := if has_column "Annual Fee" d then "Annual Fee" else "annual_fee" in
  if has_column col d then Some (get col (Some "") (combine (columns d) cells))
  else None.

(** [out[out.apply(in_cats, axis=1)]]: on a table without rows the mask
    pandas builds is an empty float series, which selects no column. *)
Definition category_step (categories : option (list string)) (out : DataFrame) : DataFrame :=
  match categories with
  | Some (c :: cs) =>
      let cats := map Py.lower (c :: cs) in
      match rows out with
      | [] => {| columns := []; rows := [] |}
      | _ :: _ => select (in_cats cats) out
      end
  | _ => out
  end.

Definition _apply_filters (df : DataFrame) (bank : option string) (max_fee : option Z)
    (categories : option (list string)) : DataFrame :=
  category_step categories (fee_step max_fee (bank_step bank df)).

Definition keyword_synonyms : list string := [
  "cashback"; "travel"; "lounge"; "fuel"; "shopping"; "dining"; "online"; "groceries";
  "rewards"; "airport"; "airport lounge"; "priority pass"; "milestone";
  "annual fee waiver"; "forex"; "foreign"; "international"; "movie"; "movies"; "cinema";
  "railway lounge"; "travel insurance"; "dining offers"; "fuel surcharge"
].

Definition keyword_text (row : Series) : string :=
  Py.lower (Py.join " " [
    str (get "Card Name" (Some "") row);
    str (get "Description" (Some "") row);
    str (get "Key Benefits" (Some "") row);
    str (get "Tags" (Some "") row)
  ]).

Definition _keyword_bonus (query : string) (row : Series) : Q :=
  let q := Py.lower query in
  let txt := keyword_text row in
  let bonus :=
    fold_left (fun (bonus : Q) (w : string) =>
                 if Py.contains w q && Py.contains w txt then (bonus + (5 # 100))%Q else bonus)
              keyword_synonyms 0%Q in
  Py.min bonus (20 # 100).

Definition _bank_bonus (bank : option string) (row : Series) : Q :=
  match bank with
  | Some b =>
      if negb (String.eqb b "") then
        if Py.contains (Py.lower b) (Py.lower (bank_of row)) then 25 # 100 else 0%Q
      else 0%Q
  | None => 0%Q
  end.

(** [rows.sort(key=lambda x: x[1], reverse=True)]: descending by score;
    the sort is stable, so rows of equal score keep their order. *)
Fixpoint insert_desc (x : nat * Q) (l : list (nat * Q)) : list (nat * Q) :=
  match l with
  | [] => [x]
  | y :: rest =>
      if Qle_bool (snd y) (snd x) then x :: y :: rest
      else y :: insert_desc x rest
  end.

Definition sort_desc (l : list (nat * Q)) : list (nat * Q) :=
  fold_right insert_desc [] l.

(** The card name the diversity step compares. *)
Definition name_of (base : DataFrame) (i : nat) : string :=
  Py.lower (Py.strip
    (str (get "Card Name" (get "card_name" (Some "") (loc base i)) (loc base i)))).

Section Search.
Context `{L : Lexical}.

(** The scoring loop: one (label, score) pair per row of [base]. *)
Definition score_rows (query : string) (bank : option string) (base : DataFrame)
    : list (nat * Q) :=
  let queries := _tokenize query in
  let base_tokens := map (fun ir => _tokenize (_row_text (snd ir))) (iterrows base) in
  let sims := map (bm25_get_scores base_tokens queries) (seq 0 (length base_tokens)) in
  map (fun p => let '((i, row), sim) := p in
                (i, (sim + _keyword_bonus query row + _bank_bonus bank row)%Q))
      (combine (iterrows base) sims).

Definition near_duplicate (name : string) (seen : gset string) : bool :=
  existsb (fun s => Qle_bool 92 (partial_ratio name s)) (elements seen).

(** The diversity loop over the sorted rows. *)
Fixpoint diversify (base : DataFrame) (limit : Z) (rows : list (nat * Q))
    (seen : gset string) (picked : list nat) : list nat :=
  match rows with
  | [] => picked
  | (i, _) :: rest =>
      let name := name_of base i in
      if near_duplicate name seen then diversify base limit rest seen picked
      else
        let seen := {[ name ]} ∪ seen in
        let picked := picked ++ [i] in
        if (limit <=? Z.of_nat (length picked))%Z then picked
        else diversify base limit rest seen picked
  end.

Definition canonical_names : list (string * string) := [
  ("Card Name", "card_name"); ("Bank Name", "bank_name"); ("Card Type", "card_type");
  ("Tags", "tags"); ("Website", "website"); ("Description", "description");
  ("Eligibility", "eligibility"); ("Annual Fee", "annual_fee");
  ("Key Benefits", "key_benefits"); ("FAQ", "faq")
].

(** [k or self.k] *)
Definition effective_k (self : t) (k : option Z) : Z :=
  match k with
  | Some n => if (n =? 0)%Z then self_k self else n
  | None => self_k self
  end.

(** The candidate pool: the filtered table, or the whole table when
    the filters leave nothing. *)
Definition candidate_base (self : t) (bank : option string) (max_fee : option Z)
    (categories : option (list string)) : DataFrame :=
  let base := _apply_filters (self_df self) bank max_fee categories in
  if empty base then self_df self else base.

(** Steps 2 and 3 of [search] on a candidate pool: the labels picked
    by the diversity loop, best score first. *)
Definition picked_labels (base : DataFrame) (query : string) (bank : option string)
    (k : Z) : list nat :=
  let rows := sort_desc (score_rows query bank base) in
  diversify base (Py.max (k * 2) 12) rows ∅ [].

(** Steps 2 to 4 of [search] on a candidate pool. *)
Definition rank (base : DataFrame) (query : string) (bank : option string) (k : Z)
    : DataFrame :=
  let picked := picked_labels base query bank k in
  let candidates := loc_list base picked in
  rename canonical_names (head k candidates).

(** The guard of [search]: the table is not empty and the index was
    built. *)
Definition ready (self : t) : bool :=
  negb (empty (self_df self) || negb (is_Some_b (self_bm25 self))).

Definition search (self : t) (query : string) (bank : option string)
    (max_fee : option Z) (categories : option (list string)) (k : option Z)
    : DataFrame :=
  if negb (ready self) then empty_frame
  else
    let k := effective_k self k in
    let base := candidate_base self bank max_fee categories in
    rank base query bank k.

(** A call of [search]: it raises when the index of the candidate pool
    cannot be built. *)
Definition search_outcome (self : t) (query : string) (bank : option string)
    (max_fee : option Z) (categories : option (list string)) (k : option Z)
    : option DataFrame :=
  if negb (ready self) then Some empty_frame
  else
    let k := effective_k self k in
    let base := candidate_base self bank max_fee categories in
    if has_token (corpus_of base) then Some (rank base query bank k) else None.

End Search.

End LocalRetriever.

(** ** CreditCardVectorStore and the retriever cache *)

Module CreditCardVectorStore.

(** What the constructor reads from outside the process: the environment
    variable and, for each path that exists, the file's content. *)
Record Env := {
  CREDIT_CARD_DATA_PATH : option string;
  files : gmap string Csv
}.

(** The process state: retriever objects by identity, and the module-level
    dictionary [_RETRIEVER_CACHE] from cache key to retriever object. *)
Record Process := {
  heap : gmap nat LocalRetriever.t;
  _RETRIEVER_CACHE : gmap string nat
}.

Record t := {
  data_path : string;
  df : DataFrame;
  retriever : nat
}.

(** [os.getenv("CREDIT_CARD_DATA_PATH", "credit_cards_dataset.csv")] *)
Definition getenv_path (env : Env) : string :=
  default "credit_cards_dataset.csv" (CREDIT_CARD_DATA_PATH env).

(** [data_path or os.getenv(...)] *)
Definition resolve_path (env : Env) (data_path : option string) : string :=
  match data_path with
  | Some p => if String.eqb p "" then getenv_path env else p
  | None => getenv_path env
  end.

Definition cache_key (path : string) : string := path ++ "::bm25".

(** [CreditCardVectorStore(force_reindex, data_path)] *)
Definition __init__ (env : Env) (force_reindex : bool) (data_path : option string)
    (σ : Process) : t * Process :=
  let path := resolve_path env data_path in
  let d := match files env !! path with
           | Some f => fillna "" (read_csv f)
           | None => empty_frame
           end in
  let key := cache_key path in
  match (if force_reindex then None else _RETRIEVER_CACHE σ !! key) with
  | Some r =>
      ({| data_path := path; df := d; retriever := r |}, σ)
  | None =>
      let r := fresh (dom (heap σ)) in
      ({| data_path := path; df := d; retriever := r |},
       {| heap := <[ r := LocalRetriever.__init__ (Some d) 10 ]> (heap σ);
          _RETRIEVER_CACHE := <[ key := r ]> (_RETRIEVER_CACHE σ) |})
  end.

(** A call [CreditCardVectorStore(force_reindex, data_path)]: it raises
    when the file has no column, or when the retriever it builds raises. *)
Definition init_outcome (env : Env) (force_reindex : bool) (data_path : option string)
    (σ : Process) : option (t * Process) :=
  let path := resolve_path env data_path in
  let out := __init__ env force_reindex data_path σ in
  match files env !! path with
  | Some f =>
      if parsable f then
        match (if force_reindex then None else _RETRIEVER_CACHE σ !! cache_key path) with
        | Some _ => Some out
        | None =>
            match LocalRetriever.init_outcome (Some (df (fst out))) 10 with
            | Some _ => Some out
            | None => None
            end
        end
      else None
  | None => Some out
  end.

(** [as_retriever(k)]: sets [k] on the shared retriever object. *)
Definition as_retriever (self : t) (k : Z) (σ : Process) : nat * Process :=
  let set_k (r : LocalRetriever.t) :=
    {| LocalRetriever.self_k := k;
       LocalRetriever.self_df := LocalRetriever.self_df r;
       LocalRetriever.self_bm25 := LocalRetriever.self_bm25 r;
       LocalRetriever.self_corpus := LocalRetriever.self_corpus r |} in
  (retriever self,
   {| heap := alter set_k (retriever self) (heap σ);
      _RETRIEVER_CACHE := _RETRIEVER_CACHE σ |}).

End CreditCardVectorStore.

Import LocalRetriever.

(** ** Sample data *)

(** A small stand-in for the third-party scorers, used to run the
    retriever on sample tables: the lexical score of a document is the
    number of query tokens it contains, and two names are fully similar
    when one contains the other. *)
Definition overlap_lexical : Lexical := {|
  bm25_get_scores := fun corpus query i =>
    match nth_error corpus i with
    | Some doc =>
        inject_Z (Z.of_nat (length (List.filter
          (fun q => existsb (String.eqb q) doc) query)))
    | None => 0%Q
    end;
  partial_ratio := fun a b =>
    if Py.contains a b || Py.contains b a then 100%Q else 0%Q
|}.

Definition sample_cards : Csv := {|
  header := ["Card Name"; "Bank Name"; "Annual Fee"; "Key Benefits"; "Tags"];
  records := [
    [Some "SuperSaver Gold"; Some "SBI"; Some "500"; Some "5% cashback online"; Some "cashback"];
    [Some "supersaver gold "; Some "HDFC"; Some "N/A"; Some "cashback"; None];
    [Some "Travel Plus"; Some "HDFC"; Some "2,000"; Some "airport lounge access"; Some "travel"]
  ]
|}.

(** The same table under the snake_case column names. *)
Definition sample_cards_snake : Csv := {|
  header := ["card_name"; "bank_name"; "annual_fee"; "key_benefits"; "tags"];
  records := records sample_cards
|}.

(** A table that has only two of the ten columns. *)
Definition sample_two_columns : Csv := {|
  header := ["Card Name"; "Bank Name"];
  records := [[Some "SuperSaver Gold"; Some "SBI"]]
|}.

(** A table whose only cheap card has no text. *)
Definition sample_blank_card : Csv := {|
  header := ["Card Name"; "Annual Fee"];
  records := [[Some "Gold"; Some "500"]; [None; Some "10"]]
|}.

(** The order of the ranked rows: best score first. *)
Definition desc (u v : nat * Q) : Prop := (snd v <= snd u)%Q.

(** One round of the bonus loop of [_keyword_bonus]. *)
Definition keyword_hit (q txt w : string) : bool := Py.contains w q && Py.contains w txt.

(** The snake_case names of the data model. *)
Definition snake_names : list string := map snd canonical_names.

(** The table uses the Title-Case scheme: no column bears a snake_case
    name of the data model. *)
Definition title_scheme (d : DataFrame) : bool :=
  forallb (fun c => negb (existsb (String.eqb c) snake_names)) (columns d).

(** A row with these cells respects the fee ceiling: its fee, as the fee
    filter reads it, is at most a ceiling that is given and not 0. *)
Definition fee_ok (d : DataFrame) (max_fee : option Z) (cells : list cell) : Prop :=
  forall m x, max_fee = Some m -> m <> 0%Z -> fee_field d cells = Some x ->
              (fee_val x <= m)%Z.

(** A row mentions one of the requested categories, when there are any. *)
Definition category_ok (d : DataFrame) (categories : option (list string))
    (cells : list cell) : Prop :=
  forall c cs, categories = Some (c :: cs) ->
               in_cats (map Py.lower (c :: cs)) (combine (columns d) cells) = true.

(** A row's bank field contains the bank name, case ignored. *)
Definition bank_match (b : string) (d : DataFrame) (cells : list cell) : bool :=
  Py.contains (Py.lower b) (Py.lower (bank_of (combine (columns d) cells))).

Definition sample_retriever : LocalRetriever.t :=
  LocalRetriever.__init__ (Some (read_csv sample_cards)) 10.

(** A process that has built nothing yet, and an environment with one
    data file. *)
Definition sample_env : CreditCardVectorStore.Env := {|
  CreditCardVectorStore.CREDIT_CARD_DATA_PATH := Some "cards.csv";
  CreditCardVectorStore.files := {[ "cards.csv" := sample_cards ]}
|}.

Definition new_process : CreditCardVectorStore.Process := {|
  CreditCardVectorStore.heap := ∅;
  CreditCardVectorStore._RETRIEVER_CACHE := ∅
|}.

(** ** query_router: intent detection and web routing *)

Module QueryRouter.

(** [any(w in ql for w in words)] *)
Definition any_in (words : list string) (ql : string) : bool :=
  existsb (fun w => Py.contains w ql) words.

Definition smalltalk_words : list string := [
  "hi"; "hello"; "hey"; "namaste"; "good morning"; "good evening"; "yo"; "sup";
  "thank"; "thanks"; "help"
].

Definition banking_qa_triggers : list string := [
  "what is "; "difference between"; "how to "; "how does "; "meaning of "; "define ";
  "benefits of "; "pros and cons"; "cons of "; "eligibility for "; "requirements for ";
  "credit score"; "cibil score"; "debit card"; "upi"; "net banking"; "kcc"; "loan"; "emi"
].

Definition card_terms : list string := [
  "credit card"; "card"; "cashback"; "lounge"; "travel"; "airport"; "rewards"; "fuel";
  "groceries"; "shopping"; "dining"; "movies"; "no annual fee"; "annual fee"; "cibil";
  "eligibility"; "income"; "limit"; "premium"; "lakh"; "fee"; "bank"
].

(** [detect_intent(q)]; a query of [None] is read as the empty text. *)
Definition detect_intent (q : option string) : string :=
  let ql := Py.lower (Py.strip (default "" q)) in
  if any_in smalltalk_words ql then "smalltalk"
  else if Py.contains "compare" ql || Py.contains " vs " ql || Py.contains "versus" ql
  then "compare"
  else if any_in banking_qa_triggers ql then "banking_qa"
  else if any_in card_terms ql then "recommend"
  else "unknown".

Definition web_words : list string := [
  "latest"; "news"; "recent"; "2024"; "2025"; "2026"; "updated"; "policy"; "new rules";
  "change"; "revised"; "launch"
].

(** [route_query(query, vector_empty)]: whether the web is consulted. *)
Definition route_query (query : option string) (vector_empty : bool) : bool :=
  let q := Py.lower (default "" query) in
  if vector_empty then true else any_in web_words q.

End QueryRouter.

(** ** The data processor, the assistant object and its singleton *)

Module CreditCardDataProcessor.

Record t := {
  csv : string;
  df : DataFrame
}.

(** [CreditCardDataProcessor(csv_file)] *)
Definition __init__ (env : CreditCardVectorStore.Env) (csv_file : option string) : t :=
  let path := CreditCardVectorStore.resolve_path env csv_file in
  {| csv := path;
     df := match CreditCardVectorStore.files env !! path with
           | Some f => fillna "" (read_csv f)
           | None => empty_frame
           end |}.

(** [get_df()]: a copy of the table. *)
Definition get_df (self : t) : DataFrame := df self.

End CreditCardDataProcessor.

Module CreditCardRAG.

(** The assistant object, as far as the dataset goes: its data processor,
    its store and the retriever object it queries.  (It also holds a
    web-search client, which has no part in the process state modelled
    here.) *)
Record t := {
  data : CreditCardDataProcessor.t;
  vs : CreditCardVectorStore.t;
  retriever : nat
}.

(** [CreditCardRAG(force_reindex, data_path)] *)
Definition __init__ (env : CreditCardVectorStore.Env) (force_reindex : bool)
    (data_path : option string) (σ : CreditCardVectorStore.Process)
    : t * CreditCardVectorStore.Process :=
  let path := CreditCardVectorStore.resolve_path env data_path in
  let data := CreditCardDataProcessor.__init__ env (Some path) in
  let '(vs, σ) := CreditCardVectorStore.__init__ env force_reindex (Some path) σ in
  let '(r, σ) := CreditCardVectorStore.as_retriever vs 10 σ in
  ({| data := data; vs := vs; retriever := r |}, σ).

End CreditCardRAG.

Module Server.

(** The server process: the retriever objects and cache, and the global
    [_RAG]. *)
Record State := {
  process : CreditCardVectorStore.Process;
  _RAG : option CreditCardRAG.t
}.

(** [get_rag(force_reindex, data_path)] *)
Definition get_rag (env : CreditCardVectorStore.Env) (force_reindex : bool)
    (data_path : option string) (st : State) : CreditCardRAG.t * State :=
  let path_given := match data_path with
                    | Some p => negb (String.eqb p "")
                    | None => false
                    end in
  match _RAG st with
  | Some rag =>
      if force_reindex || path_given then
        let '(rag', σ) := CreditCardRAG.__init__ env force_reindex data_path (process st) in
        (rag', {| process := σ; _RAG := Some rag' |})
      else (rag, st)
  | None =>
      let '(rag', σ) := CreditCardRAG.__init__ env force_reindex data_path (process st) in
      (rag', {| process := σ; _RAG := Some rag' |})
  end.

End Server.

(** Leading blanks dropped from a list of characters, and blanks dropped
    at both ends: [lstrip] and [strip] on the characters of a text. *)
Fixpoint drop_blanks (l : list ascii) : list ascii :=
  match l with
  | c :: t => if Py.is_space c then drop_blanks t else l
  | [] => []
  end.

Definition strip_chars (l : list ascii) : list ascii :=
  rev (drop_blanks (rev (drop_blanks l))).

(** Every cache entry refers to a retriever object that exists. *)
Definition cache_live (σ : CreditCardVectorStore.Process) : Prop :=
  forall key r, CreditCardVectorStore._RETRIEVER_CACHE σ !! key = Some r ->
                is_Some (CreditCardVectorStore.heap σ !! r).

(** A well-formed server state: every cache entry refers to an existing
    retriever object, every retriever object has [k = 10], and the
    retriever of the current assistant object exists. *)
Definition server_ok (st : Server.State) : Prop :=
  cache_live (Server.process st)
  /\ (forall r obj, CreditCardVectorStore.heap (Server.process st) !! r = Some obj ->
                    self_k obj = 10%Z)
  /\ (forall rag, Server._RAG st = Some rag ->
                  is_Some (CreditCardVectorStore.heap (Server.process st)
                             !! CreditCardRAG.retriever rag)).

(** The server before its first request. *)
Definition new_server : Server.State :=
  {| Server.process := new_process; Server._RAG := None |}.

(** * Properties *)

(** ** Tables and the filter stage *)

Lemma select_columns p d : columns (select p d) = columns d.
Proof. reflexivity. Qed.

Lemma select_rows_sublist p d : rows (select p d) `sublist_of` rows d.
Proof.
  unfold select; simpl. induction (rows d) as [|r l IH]; simpl.
  - constructor.
  - destruct (p _); [by apply sublist_skip | by apply sublist_cons].
Qed.

Lemma select_none p d :
  (forall r, In r (rows d) -> p (combine (columns d) (snd r)) = false) ->
  rows (select p d) = [].
Proof.
  unfold select; simpl. induction (rows d) as [|r l IH]; simpl; intros H; [done|].
  rewrite (H r) by (by left). apply IH. intros r' Hr'. apply H. by right.
Qed.

Lemma empty_no_rows d : rows d = [] -> empty d = true.
Proof. unfold empty. intros ->. by destruct (columns d). Qed.

Lemma empty_false_rows d : empty d = false -> rows d <> [].
Proof. unfold empty. destruct (columns d), (rows d); congruence. Qed.

Lemma empty_same_columns d d' :
  columns d' = columns d -> empty d = false -> empty d' = true <-> rows d' = [].
Proof.
  unfold empty. intros ->. destruct (columns d); [by destruct (rows d)|].
  intros _. by destruct (rows d').
Qed.

Lemma bank_step_columns bank d : columns (bank_step bank d) = columns d.
Proof.
  unfold bank_step. destruct bank as [b|]; [|done].
  destruct (negb _); [|done]. by destruct (negb (empty _)).
Qed.

Lemma bank_step_rows bank d : rows (bank_step bank d) `sublist_of` rows d.
Proof.
  unfold bank_step. destruct bank as [b|]; [|done].
  destruct (negb _); [|done].
  destruct (negb (empty _)); [apply select_rows_sublist | done].
Qed.

Lemma fee_step_columns max_fee d : columns (fee_step max_fee d) = columns d.
Proof.
  unfold fee_step. destruct max_fee as [m|]; [|done].
  destruct (negb _); [|done].
  by destruct (has_column (if has_column _ d then _ else _) d).
Qed.

Lemma fee_step_rows max_fee d : rows (fee_step max_fee d) `sublist_of` rows d.
Proof.
  unfold fee_step. destruct max_fee as [m|]; [|done].
  destruct (negb _); [|done].
  destruct (has_column (if has_column _ d then _ else _) d);
    [apply select_rows_sublist | done].
Qed.

Lemma category_step_columns cats d :
  rows (category_step cats d) <> [] -> columns (category_step cats d) = columns d.
Proof.
  unfold category_step. destruct cats as [[|c cs]|]; try done.
  by destruct (rows d).
Qed.

Lemma category_step_rows cats d : rows (category_step cats d) `sublist_of` rows d.
Proof.
  unfold category_step. destruct cats as [[|c cs]|]; try done.
  destruct (rows d) eqn:E; [done|]. rewrite <- E. apply select_rows_sublist.
Qed.

Lemma apply_filters_columns d bank max_fee cats :
  rows (_apply_filters d bank max_fee cats) <> [] ->
  columns (_apply_filters d bank max_fee cats) = columns d.
Proof.
  unfold _apply_filters. intros H.
  by rewrite category_step_columns, fee_step_columns, bank_step_columns.
Qed.

Lemma apply_filters_rows d bank max_fee cats :
  rows (_apply_filters d bank max_fee cats) `sublist_of` rows d.
Proof.
  unfold _apply_filters.
  etrans; [apply category_step_rows|]. etrans; [apply fee_step_rows|].
  apply bank_step_rows.
Qed.

Section Pool.
Context `{L : Lexical}.

Lemma candidate_base_columns self bank max_fee cats :
  columns (candidate_base self bank max_fee cats) = columns (self_df self).
Proof.
  unfold candidate_base. destruct (empty _) eqn:E; [done|].
  apply apply_filters_columns. by apply empty_false_rows.
Qed.

Lemma candidate_base_rows self bank max_fee cats :
  rows (candidate_base self bank max_fee cats) `sublist_of` rows (self_df self).
Proof.
  unfold candidate_base. destruct (empty _); [done|]. apply apply_filters_rows.
Qed.

Lemma candidate_base_not_empty self bank max_fee cats :
  empty (self_df self) = false ->
  empty (candidate_base self bank max_fee cats) = false.
Proof.
  intros H. unfold candidate_base.
  destruct (empty (_apply_filters _ _ _ _)) eqn:E; done.
Qed.

Lemma ready_not_empty self : ready self = true -> empty (self_df self) = false.
Proof.
  unfold ready. destruct (empty _); [done|]. done.
Qed.

Lemma search_ready self query bank max_fee cats k :
  ready self = true ->
  search self query bank max_fee cats k
  = rank (candidate_base self bank max_fee cats) query bank (effective_k self k).
Proof. unfold search. by intros ->. Qed.

Lemma search_not_ready self query bank max_fee cats k :
  ready self = false -> search self query bank max_fee cats k = empty_frame.
Proof. unfold search. by intros ->. Qed.

End Pool.

(** ** The scoring loop, the sort and the diversity loop *)

Lemma iterrows_labels d : map fst (iterrows d) = map fst (rows d).
Proof. unfold iterrows. rewrite map_map. done. Qed.

Lemma insert_desc_perm x l : Permutation (insert_desc x l) (x :: l).
Proof.
  induction l as [|y l IH]; simpl; [done|].
  destruct (Qle_bool _ _); [done|].
  rewrite IH. apply perm_swap.
Qed.

Lemma sort_desc_perm l : Permutation (sort_desc l) l.
Proof.
  induction l as [|x l IH]; simpl; [done|].
  by rewrite insert_desc_perm, IH.
Qed.

Section Ranking.
Context `{L : Lexical}.

Lemma score_rows_labels query bank base :
  map fst (score_rows query bank base) = map fst (rows base).
Proof.
  unfold score_rows.
  rewrite <- iterrows_labels.
  set (sims := map _ (seq _ _)).
  assert (Hlen : length sims = length (iterrows base)).
  { unfold sims. by rewrite !length_map, length_seq. }
  revert Hlen. generalize sims. generalize (iterrows base).
  induction l as [|[i a] l IH]; intros [|b m]; simpl; try done.
  intros [= H]. by rewrite IH.
Qed.

Lemma diversify_prefix base limit rws seen picked :
  picked `prefix_of` diversify base limit rws seen picked.
Proof.
  revert seen picked. induction rws as [|[i s] rws IH]; intros seen picked; simpl.
  - done.
  - destruct (near_duplicate _ _); [apply IH|].
    destruct (_ <=? _)%Z.
    + by apply prefix_app_r.
    + etrans; [|apply IH]. by apply prefix_app_r.
Qed.

Lemma diversify_sublist base limit rws seen picked :
  exists more, diversify base limit rws seen picked = picked ++ more
               /\ more `sublist_of` map fst rws.
Proof.
  revert seen picked. induction rws as [|[i s] rws IH]; intros seen picked; simpl.
  - exists []. by rewrite app_nil_r.
  - destruct (near_duplicate _ _).
    + destruct (IH seen picked) as (more & -> & Hs).
      exists more. split; [done|]. by apply sublist_cons.
    + destruct (_ <=? _)%Z.
      * exists [i]. split; [done|]. apply sublist_skip, sublist_nil_l.
      * destruct (IH ({[name_of base i]} ∪ seen) (picked ++ [i])) as (more & -> & Hs).
        exists (i :: more). rewrite <- app_assoc. split; [done|]. by apply sublist_skip.
Qed.

End Ranking.

(** ** Top-k, fallback and the bank filter *)

Lemma head_length (n : Z) d :
  (0 <= n)%Z -> (Z.of_nat (length (rows (head n d))) <= n)%Z.
Proof.
  intros Hn. unfold head; simpl.
  destruct (Z.leb_spec 0 n); [|lia].
  rewrite length_take. lia.
Qed.

Lemma loc_list_cons_not_nil d i rest :
  In i (map fst (rows d)) -> rows (loc_list d (i :: rest)) <> [].
Proof.
  unfold loc_list; simpl. intros Hi Hnil.
  apply app_eq_nil in Hnil as [Hnil _].
  apply in_map_iff in Hi as (r & <- & Hr).
  assert (Hin : In r (List.filter (fun r0 => Nat.eqb (fst r0) (fst r)) (rows d))).
  { apply filter_In. split; [done|]. apply Nat.eqb_refl. }
  rewrite Hnil in Hin. done.
Qed.

Section Fallback.
Context `{L : Lexical}.

Lemma picked_labels_head base query bank k :
  rows base <> [] ->
  exists i rest, picked_labels base query bank k = i :: rest
                 /\ In i (map fst (rows base)).
Proof.
  intros Hne. unfold picked_labels.
  pose proof (sort_desc_perm (score_rows query bank base)) as Hperm.
  pose proof (score_rows_labels query bank base) as Hlab.
  destruct (sort_desc (score_rows query bank base)) as [|[i s] rws] eqn:E.
  - apply Permutation_nil in Hperm. rewrite Hperm in Hlab. simpl in Hlab.
    destruct (rows base); done.
  - assert (Hi : In i (map fst (rows base))).
    { rewrite <- Hlab. apply in_map_iff. exists (i, s). split; [done|].
      eapply Permutation_in; [exact Hperm|]. by left. }
    simpl. unfold near_duplicate at 1. rewrite elements_empty. simpl.
    destruct (_ <=? _)%Z.
    + by exists i, [].
    + destruct (diversify_prefix base (Py.max (k * 2) 12) rws
                  ({[name_of base i]} ∪ ∅) [i]) as [more ->].
      by exists i, more.
Qed.

Lemma rank_not_empty base query bank k :
  rows base <> [] -> (0 < k)%Z -> rows (rank base query bank k) <> [].
Proof.
  intros Hne Hk. unfold rank.
  destruct (picked_labels_head base query bank k Hne) as (i & rest & -> & Hi).
  pose proof (loc_list_cons_not_nil base i rest Hi) as Hrows.
  unfold rename, head; simpl in *.
  destruct (Z.leb_spec 0 k); [|lia].
  destruct (List.filter _ _ ++ flat_map _ _) as [|r l]; [done|].
  destruct (Z.to_nat k) eqn:Ek; [lia|]. done.
Qed.

End Fallback.

(** C10. When the fee ceiling is 0 the fee filter is skipped: the filter
    stage gives what it gives with no fee ceiling at all, and the fee step
    leaves its input table untouched, so no row is excluded for its fee. *)
Theorem fee_ceiling_zero_is_skipped (d : DataFrame) (bank : option string)
    (categories : option (list string)) :
  _apply_filters d bank (Some 0%Z) categories = _apply_filters d bank None categories
  /\ fee_step (Some 0%Z) d = d.
Proof. split; reflexivity. Qed.

(** C3 (amended). [search] uses [k or self.k]: a [k] of 0, like an omitted
    [k], is replaced by the retriever's own [k].  Whenever that effective
    [k] is not negative, the result has at most that many records. *)
Theorem search_length_at_most_effective_k `{L : Lexical} (self : LocalRetriever.t)
    (query : string) (bank : option string) (max_fee : option Z)
    (categories : option (list string)) (k : option Z) :
  (0 <= effective_k self k)%Z ->
  (Z.of_nat (length (rows (search self query bank max_fee categories k)))
   <= effective_k self k)%Z.
Proof.
  intros Hk. destruct (ready self) eqn:Hready.
  - rewrite search_ready by done. unfold rank.
    change (rows (rename ?m ?d)) with (rows d).
    by apply head_length.
  - rewrite search_not_ready by done. simpl. lia.
Qed.

Lemma search_length_at_most_effective_k_witness :
  (0 <= effective_k sample_retriever (Some 2%Z))%Z
  /\ (Z.of_nat (length (rows (search (L := overlap_lexical) sample_retriever
        "cashback" None None None (Some 2%Z)))) <= 2)%Z.
Proof.
  split; [vm_compute; discriminate|].
  apply (search_length_at_most_effective_k (L := overlap_lexical) sample_retriever
           "cashback" None None None (Some 2%Z)).
  vm_compute; discriminate.
Defined.

(** C3 fails as stated at [k = 0]: the retriever's own [k] (10) takes over
    and two records come back. *)
Lemma search_k_zero_returns_records :
  length (rows (search (L := overlap_lexical) sample_retriever
                  "cashback" None None None (Some 0%Z))) = 2
  /\ ~ (Z.of_nat (length (rows (search (L := overlap_lexical) sample_retriever
                  "cashback" None None None (Some 0%Z)))) <= 0)%Z.
Proof. split; [reflexivity | vm_compute; intros H; by apply H]. Qed.

(** C1 (amended). On a non-empty dataset, when the filter stage yields zero
    rows, [search] falls back to the whole dataset: it ranks all rows of
    the table, and with a positive effective [k] its result is not empty. *)
Theorem search_falls_back_when_filters_leave_nothing `{L : Lexical}
    (self : LocalRetriever.t) (query : string) (bank : option string)
    (max_fee : option Z) (categories : option (list string)) (k : option Z) :
  ready self = true ->
  rows (_apply_filters (self_df self) bank max_fee categories) = [] ->
  search self query bank max_fee categories k
  = rank (self_df self) query bank (effective_k self k)
  /\ ((0 < effective_k self k)%Z ->
      rows (search self query bank max_fee categories k) <> []).
Proof.
  intros Hready Hnone.
  assert (Hs : search self query bank max_fee categories k
               = rank (self_df self) query bank (effective_k self k)).
  { rewrite search_ready by done. unfold candidate_base.
    by rewrite (empty_no_rows _ Hnone). }
  split; [done|]. intros Hk. rewrite Hs.
  apply rank_not_empty; [|done].
  by apply empty_false_rows, ready_not_empty.
Qed.

Lemma search_falls_back_when_filters_leave_nothing_witness :
  ready sample_retriever = true
  /\ rows (_apply_filters (self_df sample_retriever) None (Some 100%Z) None) = []
  /\ search (L := overlap_lexical) sample_retriever "cashback" None (Some 100%Z) None None
     = rank (L := overlap_lexical) (self_df sample_retriever) "cashback" None 10.
Proof.
  split; [reflexivity|]. split; [reflexivity|].
  apply (search_falls_back_when_filters_leave_nothing (L := overlap_lexical)
           sample_retriever "cashback" None (Some 100%Z) None None); reflexivity.
Defined.

(** C1 fails as stated: with a fee ceiling of 100 the filter stage leaves
    no row of the sample table, and [search] still returns two records. *)
Lemma search_not_empty_after_empty_fee_filter :
  rows (self_df sample_retriever) <> []
  /\ rows (_apply_filters (self_df sample_retriever) None (Some 100%Z) None) = []
  /\ map fst (rows (search (L := overlap_lexical) sample_retriever
                      "cashback" None (Some 100%Z) None None)) = [0; 2].
Proof. split; [discriminate|]. split; reflexivity. Qed.

Lemma bank_step_unmatched (b : string) (d : DataFrame) :
  (forall r, In r (rows d) ->
     Py.contains (Py.lower b) (Py.lower (bank_of (combine (columns d) (snd r)))) = false) ->
  bank_step (Some b) d = d.
Proof.
  intros H. unfold bank_step.
  destruct (negb (String.eqb b "")); [|done].
  by rewrite (empty_no_rows _ (select_none _ _ H)).
Qed.

Lemma in_iterrows d i row :
  In (i, row) (iterrows d) -> exists r, In r (rows d) /\ row = combine (columns d) (snd r).
Proof.
  unfold iterrows. intros H. apply in_map_iff in H as (r & [= _ <-] & Hr). eauto.
Qed.

Section BankNoOp.
Context `{L : Lexical}.

Lemma score_rows_bank_ext query bank bank' base :
  (forall r, In r (rows base) ->
     _bank_bonus bank (combine (columns base) (snd r))
     = _bank_bonus bank' (combine (columns base) (snd r))) ->
  score_rows query bank base = score_rows query bank' base.
Proof.
  intros H. unfold score_rows. apply map_ext_in.
  intros [[i row] sim] Hin. apply in_combine_l in Hin.
  apply in_iterrows in Hin as (r & Hr & ->). by rewrite (H r Hr).
Qed.

Lemma rank_score_ext base query bank bank' k :
  score_rows query bank base = score_rows query bank' base ->
  rank base query bank k = rank base query bank' k.
Proof. intros H. unfold rank, picked_labels. by rewrite H. Qed.

End BankNoOp.

(** C5. When no row's bank field contains the requested bank name (case
    ignored), the bank filter is a no-op, the bank bonus is zero on every
    row, and [search] with that bank returns exactly the records, in the
    same order, that it returns with no bank. *)
Theorem search_unmatched_bank_same_as_no_bank `{L : Lexical} (self : LocalRetriever.t)
    (query b : string) (max_fee : option Z) (categories : option (list string))
    (k : option Z) :
  (forall r, In r (rows (self_df self)) ->
     Py.contains (Py.lower b)
       (Py.lower (bank_of (combine (columns (self_df self)) (snd r)))) = false) ->
  _apply_filters (self_df self) (Some b) max_fee categories
  = _apply_filters (self_df self) None max_fee categories
  /\ (forall r, In r (rows (self_df self)) ->
        _bank_bonus (Some b) (combine (columns (self_df self)) (snd r)) = 0%Q)
  /\ search self query (Some b) max_fee categories k
     = search self query None max_fee categories k.
Proof.
  intros H.
  assert (Hf : _apply_filters (self_df self) (Some b) max_fee categories
               = _apply_filters (self_df self) None max_fee categories).
  { unfold _apply_filters. by rewrite (bank_step_unmatched b _ H). }
  assert (Hb : forall r, In r (rows (self_df self)) ->
             _bank_bonus (Some b) (combine (columns (self_df self)) (snd r)) = 0%Q).
  { intros r Hr. unfold _bank_bonus. rewrite (H r Hr). by destruct (negb _). }
  split; [done|]. split; [done|].
  destruct (ready self) eqn:Hready.
  - rewrite !search_ready by done.
    assert (Hc : candidate_base self (Some b) max_fee categories
                 = candidate_base self None max_fee categories).
    { unfold candidate_base. by rewrite Hf. }
    rewrite Hc. apply rank_score_ext, score_rows_bank_ext.
    intros r Hr. rewrite candidate_base_columns.
    apply Hb.
    pose proof (candidate_base_rows self None max_fee categories) as Hsub.
    apply sublist_subseteq in Hsub.
    apply list_elem_of_In, Hsub, list_elem_of_In, Hr.
  - by rewrite !search_not_ready.
Qed.

Lemma search_unmatched_bank_same_as_no_bank_witness :
  search (L := overlap_lexical) sample_retriever "cashback travel" (Some "XYZ")
    (Some 1000%Z) None None
  = search (L := overlap_lexical) sample_retriever "cashback travel" None
      (Some 1000%Z) None None.
Proof.
  apply (search_unmatched_bank_same_as_no_bank (L := overlap_lexical) sample_retriever
           "cashback travel" "XYZ" (Some 1000%Z) None None).
  intros r Hr. simpl in Hr.
  destruct Hr as [<-|[<-|[<-|[]]]]; reflexivity.
Defined.

(** ** Malformed fees *)

Lemma fee_val_unparsable (x : cell) :
  Py.int (Py.replace "," "" (str x)) = None -> fee_val x = (10 ^ 9)%Z.
Proof. unfold fee_val. by intros ->. Qed.

(** What [int] reads and what it refuses: blanks around the literal, a
    sign and single underscores between digits are read; a unit separator
    (which [str.strip] would skip), an inner blank, a lone sign and a
    doubled underscore are not. *)
Example int_reads_and_refuses :
  Py.int "500" = Some 500%Z
  /\ Py.int " 1_000 " = Some 1000%Z
  /\ Py.int "-5" = Some (-5)%Z
  /\ Py.int "007" = Some 7%Z
  /\ Py.int (String "031" "5") = None
  /\ Py.int "5 0" = None
  /\ Py.int "+ 5" = None
  /\ Py.int "1__0" = None
  /\ Py.int "N/A" = None
  /\ Py.int "" = None
  /\ Py.strip (String "031" "5") = "5"
  /\ fee_val (Some (String "031" "5")) = (10 ^ 9)%Z
  /\ fee_val (Some "2,000") = 2000%Z.
Proof. vm_compute. repeat split. Qed.

Lemma has_column_same_columns c d d' :
  columns d' = columns d -> has_column c d' = has_column c d.
Proof. unfold has_column. by intros ->. Qed.

Lemma fee_step_keeps d (m : Z) (i : nat) (cells : list cell) (x : cell) :
  m <> 0%Z ->
  fee_field d cells = Some x ->
  In (i, cells) (rows (fee_step (Some m) d)) ->
  (fee_val x <= m)%Z.
Proof.
  intros Hm Hx Hin. unfold fee_step, fee_field in *.
  destruct (Z.eqb_spec m 0); [done|]. simpl in Hin.
  destruct (has_column (if has_column _ d then _ else _) d); [|done].
  injection Hx as <-.
  unfold select in Hin; simpl in Hin.
  apply filter_In in Hin as [_ Hle]. simpl in Hle. lia.
Qed.

(** C4 (amended). A fee that does not parse after the thousands separators
    are stripped is read as [10**9], so the parse failure raises nothing;
    for every fee ceiling that is neither 0 nor at least [10**9], the
    filter stage excludes the row. *)
Theorem unparsable_fee_excluded_below_sentinel (d : DataFrame) (bank : option string)
    (m : Z) (categories : option (list string)) (i : nat) (cells : list cell)
    (x : cell) :
  In (i, cells) (rows d) ->
  fee_field d cells = Some x ->
  Py.int (Py.replace "," "" (str x)) = None ->
  m <> 0%Z ->
  (m < 10 ^ 9)%Z ->
  fee_val x = (10 ^ 9)%Z
  /\ ~ In (i, cells) (rows (_apply_filters d bank (Some m) categories)).
Proof.
  intros _ Hx Hparse Hm Hlt.
  pose proof (fee_val_unparsable x Hparse) as Hval.
  split; [done|]. intros Hin.
  unfold _apply_filters in Hin.
  pose proof (category_step_rows categories (fee_step (Some m) (bank_step bank d))) as Hsub.
  apply sublist_subseteq in Hsub.
  apply list_elem_of_In, Hsub, list_elem_of_In in Hin.
  assert (Hx' : fee_field (bank_step bank d) cells = Some x).
  { unfold fee_field in *.
    by rewrite !(has_column_same_columns _ _ _ (bank_step_columns bank d)),
               bank_step_columns. }
  pose proof (fee_step_keeps _ m i cells x Hm Hx' Hin). lia.
Qed.

Lemma unparsable_fee_excluded_below_sentinel_witness :
  ~ In (1, [Some "supersaver gold "; Some "HDFC"; Some "N/A"; Some "cashback"; Some ""])
       (rows (_apply_filters (self_df sample_retriever) None (Some 1000%Z) None)).
Proof.
  apply (unparsable_fee_excluded_below_sentinel (self_df sample_retriever) None 1000 None
           1 _ (Some "N/A")).
  - vm_compute. right. left. reflexivity.
  - reflexivity.
  - reflexivity.
  - discriminate.
  - reflexivity.
Defined.

(** C4 fails as stated: the row of the sample table whose fee is "N/A"
    passes the filter stage when the ceiling is 0 (the fee filter is
    skipped) and when it is [10**9] (the value an unparsable fee is read
    as). *)
Lemma unparsable_fee_kept_at_zero_and_at_sentinel :
  Py.int (Py.replace "," "" "N/A") = None
  /\ In 1 (map fst (rows (_apply_filters (self_df sample_retriever) None (Some 0%Z) None)))
  /\ In 1 (map fst (rows (_apply_filters (self_df sample_retriever) None
                            (Some (10 ^ 9)%Z) None))).
Proof.
  split; [reflexivity|]. split; vm_compute; right; left; reflexivity.
Qed.

(** ** The retriever cache *)

Import CreditCardVectorStore.

Lemma init_caches_retriever env force p σ :
  _RETRIEVER_CACHE (__init__ env force p σ).2 !! cache_key (resolve_path env p)
  = Some (retriever (__init__ env force p σ).1).
Proof.
  unfold __init__.
  destruct force; simpl.
  - apply lookup_insert_eq.
  - destruct (_RETRIEVER_CACHE σ !! _) eqn:E; simpl; [done|].
    apply lookup_insert_eq.
Qed.

Lemma init_cached env p σ r :
  _RETRIEVER_CACHE σ !! cache_key (resolve_path env p) = Some r ->
  retriever (__init__ env false p σ).1 = r /\ (__init__ env false p σ).2 = σ.
Proof. unfold __init__. simpl. by intros ->. Qed.


(** ** Order of the ranked rows *)

(** [[a; b] `sublist_of` l] reads: [a] occurs in [l] before [b]. *)

Lemma pair_sublist_of_lookup {A} (l : list A) (i j : nat) (a b : A) :
  i < j -> l !! i = Some a -> l !! j = Some b -> [a; b] `sublist_of` l.
Proof.
  revert i j. induction l as [|x l IH]; intros i j Hij Hi Hj; [done|].
  destruct j as [|j]; [lia|]. simpl in Hj.
  destruct i as [|i]; simpl in Hi.
  - injection Hi as ->. apply sublist_skip.
    apply list_elem_of_lookup_2, list_elem_of_split in Hj as (l1 & l2 & ->).
    apply sublist_inserts_l, sublist_skip, sublist_nil_l.
  - apply sublist_cons. apply (IH i j); [lia|done|done].
Qed.

Lemma single_sublist_in {A} (a : A) (l : list A) : [a] `sublist_of` l -> In a l.
Proof.
  intros H. apply sublist_subseteq in H. apply list_elem_of_In, H. by left.
Qed.

Lemma in_single_sublist {A} (a : A) (l : list A) : In a l -> [a] `sublist_of` l.
Proof.
  intros H. apply list_elem_of_In, list_elem_of_split in H as (l1 & l2 & ->).
  apply sublist_inserts_l, sublist_skip, sublist_nil_l.
Qed.

Lemma sublist_map {A B} (f : A -> B) (l1 l2 : list A) :
  l1 `sublist_of` l2 -> map f l1 `sublist_of` map f l2.
Proof. induction 1; simpl; by constructor. Qed.

Lemma pair_sublist_map_inv {A B} (f : A -> B) (l : list A) (a b : B) :
  [a; b] `sublist_of` map f l ->
  exists x y, f x = a /\ f y = b /\ [x; y] `sublist_of` l.
Proof.
  induction l as [|z l IH]; simpl; intros H.
  - by apply sublist_nil_r in H.
  - apply sublist_cons_r in H as [H|(l' & [= -> <-] & H)].
    + destruct (IH H) as (x & y & ? & ? & ?). exists x, y. auto using sublist_cons.
    + apply single_sublist_in, in_map_iff in H as (y & Hy & Hin).
      exists z, y. split; [done|]. split; [done|].
      by apply sublist_skip, in_single_sublist.
Qed.

Lemma pair_sublist_seq (a b s n : nat) : [a; b] `sublist_of` seq s n -> a < b.
Proof.
  revert s. induction n as [|n IH]; simpl; intros s H.
  - by apply sublist_nil_r in H.
  - apply sublist_cons_r in H as [H|(l' & [= -> <-] & H)]; [by apply (IH (S s))|].
    apply single_sublist_in, in_seq in H. lia.
Qed.

Lemma pair_sublist_snoc {A} (l : list A) (x a b : A) :
  [a; b] `sublist_of` l ++ [x] -> [a; b] `sublist_of` l \/ (b = x /\ In a l).
Proof.
  intros H. apply sublist_app_r in H as (l1 & l2 & Heq & H1 & H2).
  destruct l1 as [|a' [|b' l1]]; simpl in Heq.
  - subst l2. apply sublist_length in H2. simpl in H2. lia.
  - injection Heq as -> <-. right. split.
    + apply sublist_cons_r in H2 as [H2|(l' & [= -> _] & _)]; [|done].
      by apply sublist_nil_r in H2.
    + by apply single_sublist_in.
  - injection Heq as -> -> Hnil. symmetry in Hnil.
    apply app_eq_nil in Hnil as [-> ->]. by left.
Qed.

Lemma insert_desc_in x y l : In y (insert_desc x l) -> y = x \/ In y l.
Proof.
  intros H. eapply Permutation_in in H; [|apply insert_desc_perm].
  destruct H; auto.
Qed.

Lemma insert_desc_sorted x l :
  StronglySorted desc l -> StronglySorted desc (insert_desc x l).
Proof.
  induction 1 as [|y l Hs IH Hall]; simpl.
  - repeat constructor.
  - destruct (Qle_bool (snd y) (snd x)) eqn:E.
    + apply Qle_bool_iff in E. constructor; [by constructor|].
      constructor; [done|].
      eapply Forall_impl; [exact Hall|]. intros z Hz. unfold desc in *.
      eapply Qle_trans; eauto.
    + constructor; [done|]. apply List.Forall_forall. intros z Hz.
      apply insert_desc_in in Hz as [->|Hz].
      * unfold desc. apply Qlt_le_weak, Qnot_le_lt. intros Hle.
        apply Qle_bool_iff in Hle. congruence.
      * rewrite List.Forall_forall in Hall. by apply Hall.
Qed.

Lemma sort_desc_sorted l : StronglySorted desc (sort_desc l).
Proof.
  induction l as [|x l IH]; simpl; [constructor|]. by apply insert_desc_sorted.
Qed.

Lemma sorted_pair_desc l u v :
  StronglySorted desc l -> [u; v] `sublist_of` l -> desc u v.
Proof.
  induction 1 as [|y l Hs IH Hall]; intros H.
  - by apply sublist_nil_r in H.
  - apply sublist_cons_r in H as [H|(l' & [= -> <-] & H)]; [auto|].
    rewrite List.Forall_forall in Hall. by apply Hall, single_sublist_in.
Qed.

(** Where a pair of the list after an insertion comes from. *)
Lemma insert_desc_pair x l u v :
  StronglySorted desc l ->
  [u; v] `sublist_of` insert_desc x l ->
  [u; v] `sublist_of` l
  \/ (u = x /\ In v l)
  \/ (v = x /\ In u l /\ ~ (snd u <= snd x)%Q).
Proof.
  induction 1 as [|y l Hs IH Hall]; simpl; intros H.
  - apply sublist_length in H. simpl in H. lia.
  - destruct (Qle_bool (snd y) (snd x)) eqn:E.
    + apply sublist_cons_r in H as [H|(l' & [= -> <-] & H)]; [by left|].
      right. left. split; [done|]. exact (single_sublist_in _ _ H).
    + apply sublist_cons_r in H as [H|(l' & [= -> <-] & H)].
      * destruct (IH H) as [H'|[[-> Hv]|(-> & Hu & Hn)]].
        -- left. by apply sublist_cons.
        -- right. left. split; [done|]. by right.
        -- right. right. split; [done|]. split; [by right|done].
      * apply single_sublist_in, insert_desc_in in H as [->|Hv].
        -- right. right. split; [done|]. split; [by left|].
           intros Hle. apply Qle_bool_iff in Hle. congruence.
        -- left. by apply sublist_skip, in_single_sublist.
Qed.

(** The sort is stable: rows of equal score keep the order they had. *)
Lemma sort_desc_stable l u v :
  [u; v] `sublist_of` sort_desc l ->
  (snd u == snd v)%Q ->
  [u; v] `sublist_of` l.
Proof.
  revert u v. induction l as [|x l IH]; simpl; intros u v H Heq.
  - by apply sublist_nil_r in H.
  - apply insert_desc_pair in H as [H|[[-> Hv]|(-> & Hu & Hn)]];
      [| | |apply sort_desc_sorted].
    + apply sublist_cons. by apply IH.
    + apply sublist_skip, in_single_sublist.
      eapply Permutation_in; [apply sort_desc_perm|done].
    + exfalso. apply Hn. rewrite Heq. apply Qle_refl.
Qed.

(** ** Labels of the result *)

Lemma range_indexed_NoDup d : range_indexed d -> NoDup (map fst (rows d)).
Proof. unfold range_indexed. intros ->. apply NoDup_ListNoDup, List.seq_NoDup. Qed.

Lemma read_csv_range_indexed f : range_indexed (read_csv f).
Proof.
  unfold range_indexed, read_csv; simpl.
  rewrite length_combine, length_seq, Nat.min_id.
  generalize 0. induction (records f) as [|r l IH]; intros s; simpl; [done|].
  by rewrite IH.
Qed.

Lemma fillna_range_indexed fill d : range_indexed d -> range_indexed (fillna fill d).
Proof.
  unfold range_indexed, fillna; simpl. rewrite map_map, length_map. simpl. done.
Qed.

(** The table of a retriever built from a file, as the store builds it,
    is indexed by row position. *)
Lemma init_range_indexed (f : Csv) (k : Z) :
  range_indexed (self_df (LocalRetriever.__init__ (Some (fillna "" (read_csv f))) k)).
Proof.
  unfold LocalRetriever.__init__.
  destruct (negb (empty (fillna "" (read_csv f)))); simpl.
  - destruct (negb (empty (fillna "" (fillna "" (read_csv f))))); simpl;
      apply fillna_range_indexed, fillna_range_indexed, read_csv_range_indexed.
  - done.
Qed.

Lemma filter_label_unique (l : list (nat * list cell)) (i : nat) :
  NoDup (map fst l) -> In i (map fst l) ->
  map fst (List.filter (fun r => Nat.eqb (fst r) i) l) = [i].
Proof.
  induction l as [|r l IH]; simpl; intros Hnd Hin; [done|].
  apply NoDup_cons in Hnd as [Hr Hnd].
  destruct (Nat.eqb_spec (fst r) i) as [Heq|Hne]; simpl.
  - f_equal; [done|]. subst i.
    assert (Hnone : forall l', ~ In (fst r) (map fst l') ->
              List.filter (fun r0 : nat * list cell => Nat.eqb (fst r0) (fst r)) l' = []).
    { clear. induction l' as [|r' l' IH']; simpl; intros H; [done|].
      destruct (Nat.eqb_spec (fst r') (fst r)) as [E|E]; [exfalso; auto|].
      apply IH'. tauto. }
    rewrite Hnone; [done|]. by rewrite <- list_elem_of_In.
  - destruct Hin as [Hin|Hin]; [done|]. by apply IH.
Qed.

Lemma loc_list_labels d (picked : list nat) :
  NoDup (map fst (rows d)) ->
  (forall i, In i picked -> In i (map fst (rows d))) ->
  map fst (rows (loc_list d picked)) = picked.
Proof.
  intros Hnd. unfold loc_list; simpl.
  induction picked as [|i picked IH]; simpl; intros Hin; [done|].
  rewrite map_app, filter_label_unique by auto.
  simpl. f_equal. apply IH. auto.
Qed.

Lemma head_rows_sublist n d : rows (head n d) `sublist_of` rows d.
Proof. unfold head; simpl. destruct (_ <=? _)%Z; apply sublist_take. Qed.

Section ResultOrder.
Context `{L : Lexical}.

Lemma picked_labels_sublist base query bank k :
  picked_labels base query bank k
  `sublist_of` map fst (sort_desc (score_rows query bank base)).
Proof.
  unfold picked_labels.
  destruct (diversify_sublist base (Py.max (k * 2) 12)
              (sort_desc (score_rows query bank base)) ∅ []) as (more & -> & H).
  done.
Qed.

Lemma picked_labels_in_base base query bank k i :
  In i (picked_labels base query bank k) -> In i (map fst (rows base)).
Proof.
  intros H.
  pose proof (picked_labels_sublist base query bank k) as Hsub.
  apply sublist_subseteq in Hsub.
  apply list_elem_of_In, Hsub, list_elem_of_In in H.
  rewrite <- (score_rows_labels query bank base).
  eapply Permutation_in; [|exact H].
  apply Permutation_map, sort_desc_perm.
Qed.

Lemma rank_labels_sublist base query bank k :
  NoDup (map fst (rows base)) ->
  map fst (rows (rank base query bank k))
  `sublist_of` map fst (sort_desc (score_rows query bank base)).
Proof.
  intros Hnd. unfold rank.
  change (rows (rename ?m ?d)) with (rows d).
  etrans; [apply sublist_map, head_rows_sublist|].
  rewrite loc_list_labels; [apply picked_labels_sublist|done|].
  apply picked_labels_in_base.
Qed.

Lemma candidate_base_labels self bank max_fee cats :
  map fst (rows (candidate_base self bank max_fee cats))
  `sublist_of` map fst (rows (self_df self)).
Proof. apply sublist_map, candidate_base_rows. Qed.

Lemma candidate_base_NoDup self bank max_fee cats :
  range_indexed (self_df self) ->
  NoDup (map fst (rows (candidate_base self bank max_fee cats))).
Proof.
  intros H.
  eapply sublist_NoDup; [by apply range_indexed_NoDup|].
  apply candidate_base_labels.
Qed.

End ResultOrder.

(** C7. The records [search] returns are in descending order of final
    score, and of two returned records with equal scores the one that
    comes first in the dataset comes first in the result.  The scores are
    those of the scoring loop over the candidate pool; labels are row
    positions of the dataset. *)
Theorem search_ordered_by_score_stable `{L : Lexical} (self : LocalRetriever.t)
    (query : string) (bank : option string) (max_fee : option Z)
    (categories : option (list string)) (k : option Z) (i j a b : nat) :
  range_indexed (self_df self) ->
  i < j ->
  map fst (rows (search self query bank max_fee categories k)) !! i = Some a ->
  map fst (rows (search self query bank max_fee categories k)) !! j = Some b ->
  exists sa sb : Q,
    In (a, sa) (score_rows query bank (candidate_base self bank max_fee categories))
    /\ In (b, sb) (score_rows query bank (candidate_base self bank max_fee categories))
    /\ (sb <= sa)%Q
    /\ ((sa == sb)%Q -> a < b).
Proof.
  intros Hrange Hij Ha Hb.
  destruct (ready self) eqn:Hready;
    [|by rewrite search_not_ready in Ha by done].
  rewrite search_ready in Ha, Hb by done.
  set (base := candidate_base self bank max_fee categories) in *.
  pose proof (pair_sublist_of_lookup _ i j a b Hij Ha Hb) as Hpair.
  assert (Hnd : NoDup (map fst (rows base))) by by apply candidate_base_NoDup.
  pose proof (rank_labels_sublist base query bank (effective_k self k) Hnd) as Hsub.
  assert (Hsorted : [a; b] `sublist_of` map fst (sort_desc (score_rows query bank base)))
    by (etrans; eauto).
  apply pair_sublist_map_inv in Hsorted as ([a' sa] & [b' sb] & Ea & Eb & Hs).
  simpl in Ea, Eb. subst a' b'.
  exists sa, sb.
  pose proof (sublist_subseteq _ _ Hs) as Hin.
  split.
  { eapply Permutation_in; [apply sort_desc_perm|].
    apply list_elem_of_In, Hin. by left. }
  split.
  { eapply Permutation_in; [apply sort_desc_perm|].
    apply list_elem_of_In, Hin. right. by left. }
  split.
  { exact (sorted_pair_desc _ _ _ (sort_desc_sorted _) Hs). }
  intros Heq.
  apply sort_desc_stable in Hs; [|done].
  apply (sublist_map fst) in Hs. simpl in Hs.
  rewrite score_rows_labels in Hs.
  assert (Hseq : [a; b] `sublist_of` map fst (rows (self_df self))).
  { etrans; [exact Hs|]. apply candidate_base_labels. }
  rewrite Hrange in Hseq. by apply pair_sublist_seq in Hseq.
Qed.

(** ** The diversity loop *)

Section Diversity.
Context `{L : Lexical}.

Lemma near_duplicate_true name seen :
  near_duplicate name seen = true <->
  exists s, s ∈ seen /\ (92 <= partial_ratio name s)%Q.
Proof.
  unfold near_duplicate. rewrite existsb_exists. split.
  - intros (s & Hin & Hle). exists s. split.
    + by apply elem_of_elements, list_elem_of_In.
    + by apply Qle_bool_iff.
  - intros (s & Hin & Hle). exists s. split.
    + by apply list_elem_of_In, elem_of_elements.
    + by apply Qle_bool_iff.
Qed.

Lemma near_duplicate_false name seen s :
  near_duplicate name seen = false -> s ∈ seen -> (partial_ratio name s < 92)%Q.
Proof.
  intros Hnd Hin. apply Qnot_le_lt. intros Hle.
  assert (near_duplicate name seen = true) by (apply near_duplicate_true; eauto).
  congruence.
Qed.

Lemma near_duplicate_mono name seen seen' :
  seen ⊆ seen' -> near_duplicate name seen = true -> near_duplicate name seen' = true.
Proof.
  intros Hsub H. apply near_duplicate_true in H as (s & Hin & Hle).
  apply near_duplicate_true. exists s. split; [set_solver|done].
Qed.

Lemma diversify_distinct base limit rws seen picked :
  (forall a, In a picked -> name_of base a ∈ seen) ->
  (forall a b, [a; b] `sublist_of` picked ->
     (partial_ratio (name_of base b) (name_of base a) < 92)%Q) ->
  forall a b, [a; b] `sublist_of` diversify base limit rws seen picked ->
    (partial_ratio (name_of base b) (name_of base a) < 92)%Q.
Proof.
  revert seen picked.
  induction rws as [|[i s] rws IH]; intros seen picked Hseen Hpairs; simpl; [done|].
  destruct (near_duplicate (name_of base i) seen) eqn:Hnd; [by apply IH|].
  assert (Hpairs' : forall a b, [a; b] `sublist_of` picked ++ [i] ->
            (partial_ratio (name_of base b) (name_of base a) < 92)%Q).
  { intros a b Hab. apply pair_sublist_snoc in Hab as [Hab|[-> Ha]]; [auto|].
    apply (near_duplicate_false _ seen); auto. }
  destruct (_ <=? _)%Z; [done|].
  apply IH; [|done].
  intros a Ha. apply in_app_iff in Ha as [Ha|[<-|[]]]; [|set_solver].
  specialize (Hseen a Ha). set_solver.
Qed.

Lemma diversify_blocked base limit rws seen picked b :
  near_duplicate (name_of base b) seen = true ->
  ~ In b picked ->
  ~ In b (diversify base limit rws seen picked).
Proof.
  revert seen picked.
  induction rws as [|[i s] rws IH]; intros seen picked Hb Hnot; simpl; [done|].
  destruct (near_duplicate (name_of base i) seen) eqn:Hnd; [by apply IH|].
  assert (Hne : i <> b) by (intros ->; congruence).
  assert (Hnot' : ~ In b (picked ++ [i])).
  { rewrite in_app_iff. simpl. tauto. }
  destruct (_ <=? _)%Z; [done|].
  apply IH; [|done].
  eapply near_duplicate_mono; [|exact Hb]. set_solver.
Qed.

(** Of two rows with the same normalised name, the one that comes later
    in the ranked list is never picked. *)
Lemma diversify_same_name base limit rws seen picked a b (sa sb : Q) :
  (forall s, s <> "" -> (92 <= partial_ratio s s)%Q) ->
  name_of base a <> "" ->
  NoDup (map fst rws) ->
  [(a, sa); (b, sb)] `sublist_of` rws ->
  name_of base a = name_of base b ->
  ~ In b picked ->
  ~ In b (diversify base limit rws seen picked).
Proof.
  intros Hrefl Hnonempty. revert seen picked.
  induction rws as [|[i s] rws IH]; intros seen picked Hnd Hab Hname Hnot; simpl.
  { by apply sublist_nil_r in Hab. }
  simpl in Hnd. apply NoDup_cons in Hnd as [Hi Hnd].
  assert (Hb : In b (map fst rws)).
  { apply sublist_cons_r in Hab as [Hab|(l' & [= <- <- <-] & Hab)].
    - apply in_map_iff. exists (b, sb). split; [done|].
      apply list_elem_of_In, (sublist_subseteq _ _ Hab). right. by left.
    - apply in_map_iff. exists (b, sb). split; [done|].
      by apply single_sublist_in. }
  assert (Hne : i <> b).
  { intros ->. by apply Hi, list_elem_of_In. }
  assert (Hnot' : ~ In b (picked ++ [i])).
  { rewrite in_app_iff. simpl. tauto. }
  apply sublist_cons_r in Hab as [Hab|(l' & [= <- <- <-] & Hab)].
  - destruct (near_duplicate (name_of base i) seen); [by apply IH|].
    destruct (_ <=? _)%Z; [done|]. by apply IH.
  - destruct (near_duplicate (name_of base a) seen) eqn:Ea.
    + apply diversify_blocked; [|done]. by rewrite <- Hname.
    + destruct (_ <=? _)%Z; [done|].
      apply diversify_blocked; [|done].
      apply near_duplicate_true. exists (name_of base a).
      split; [set_solver|]. rewrite <- Hname. by apply Hrefl.
Qed.

(** The best-ranked row is always picked. *)
Lemma diversify_first base limit i (s : Q) rws :
  exists more, diversify base limit ((i, s) :: rws) ∅ [] = i :: more.
Proof.
  simpl. unfold near_duplicate at 1. rewrite elements_empty. simpl.
  destruct (_ <=? _)%Z; [by exists []|].
  destruct (diversify_prefix base limit rws ({[name_of base i]} ∪ ∅) [i]) as [more ->].
  by exists more.
Qed.

Lemma diversify_length base limit rws seen picked :
  (Z.of_nat (length picked) < limit)%Z ->
  (Z.of_nat (length (diversify base limit rws seen picked)) <= limit)%Z.
Proof.
  revert seen picked.
  induction rws as [|[i s] rws IH]; intros seen picked Hlt; simpl; [lia|].
  destruct (near_duplicate _ _); [by apply IH|].
  destruct (Z.leb_spec limit (Z.of_nat (length (picked ++ [i])))) as [Hle|Hgt].
  - rewrite length_app in *. simpl in *. lia.
  - by apply IH.
Qed.

(** The set [seen] holds the names of the rows picked so far. *)
Lemma names_snoc base (picked : list nat) i :
  ({[ name_of base i ]} ∪ list_to_set (map (name_of base) picked) : gset string)
  = list_to_set (map (name_of base) (picked ++ [i])).
Proof.
  rewrite map_app, list_to_set_app_L. cbn [map list_to_set foldr].
  by rewrite (right_id_L ∅ (∪)), (comm_L (∪)).
Qed.

Lemma near_duplicate_names base name (kept : list nat) :
  near_duplicate name (list_to_set (map (name_of base) kept)) = false <->
  forall a, In a kept -> (partial_ratio name (name_of base a) < 92)%Q.
Proof.
  split.
  - intros H a Ha. apply (near_duplicate_false _ _ _ H).
    apply elem_of_list_to_set, list_elem_of_In, in_map. done.
  - intros H. apply not_true_is_false. intros Hd.
    apply near_duplicate_true in Hd as (s & Hs & Hle).
    apply elem_of_list_to_set, list_elem_of_In, in_map_iff in Hs as (a & <- & Ha).
    specialize (H a Ha). by apply Qlt_not_le in H.
Qed.

(** The loop over [before ++ rest] is the loop over [before], followed,
    unless the pool is full by then, by the loop over [rest]. *)
Lemma diversify_app base limit before rest picked :
  (Z.of_nat (length picked) < limit)%Z ->
  diversify base limit (before ++ rest) (list_to_set (map (name_of base) picked)) picked
  = if (Z.of_nat (length (diversify base limit before
                            (list_to_set (map (name_of base) picked)) picked)) <? limit)%Z
    then diversify base limit rest
           (list_to_set (map (name_of base)
              (diversify base limit before
                 (list_to_set (map (name_of base) picked)) picked)))
           (diversify base limit before (list_to_set (map (name_of base) picked)) picked)
    else diversify base limit before (list_to_set (map (name_of base) picked)) picked.
Proof.
  revert picked. induction before as [|[i s] before IH]; intros picked Hlt.
  - cbn [diversify app]. destruct (Z.ltb_spec (Z.of_nat (length picked)) limit); [done|lia].
  - cbn [diversify app].
    destruct (near_duplicate _ _); [by apply IH|].
    destruct (Z.leb_spec limit (Z.of_nat (length (picked ++ [i])))) as [Hle|Hgt].
    + destruct (Z.ltb_spec (Z.of_nat (length (picked ++ [i]))) limit); [lia|done].
    + rewrite names_snoc. by apply IH.
Qed.

(** A candidate is picked exactly when the pool is not full when the loop
    reaches it and its name is below the threshold against the name of
    every candidate picked before it. *)
Lemma diversify_kept_iff base limit before b (sb : Q) after :
  NoDup (map fst (before ++ (b, sb) :: after)) ->
  (0 < limit)%Z ->
  diversify base limit before ∅ []
    `prefix_of` diversify base limit (before ++ (b, sb) :: after) ∅ []
  /\ (In b (diversify base limit (before ++ (b, sb) :: after) ∅ []) <->
      (Z.of_nat (length (diversify base limit before ∅ [])) < limit)%Z
      /\ forall a, In a (diversify base limit before ∅ []) ->
           (partial_ratio (name_of base b) (name_of base a) < 92)%Q).
Proof.
  intros Hnd Hlim.
  rewrite map_app in Hnd. cbn [map fst] in Hnd.
  apply NoDup_app in Hnd as (_ & Hba & Hnd').
  apply NoDup_cons in Hnd' as [Hafter _].
  assert (Hbefore : ~ In b (map fst before)).
  { intros Hb. apply list_elem_of_In in Hb. apply (Hba b Hb). by left. }
  pose proof (diversify_app base limit before ((b, sb) :: after) [] Hlim) as E.
  change (list_to_set (map (name_of base) [])) with (∅ : gset string) in E.
  rewrite E. clear E. set (kept := diversify base limit before ∅ []).
  assert (Hkept : ~ In b kept).
  { unfold kept. destruct (diversify_sublist base limit before ∅ []) as (more & -> & Hs).
    intros Hb. apply Hbefore, list_elem_of_In, (sublist_subseteq _ _ Hs).
    by apply list_elem_of_In. }
  destruct (Z.ltb_spec (Z.of_nat (length kept)) limit) as [Hlt|Hge].
  - split; [apply diversify_prefix|].
    cbn [diversify].
    destruct (near_duplicate (name_of base b) _) eqn:Hdup.
    + split.
      * intros Hb. exfalso.
        destruct (diversify_sublist base limit after
                    (list_to_set (map (name_of base) kept)) kept) as (more & Em & Hs).
        rewrite Em in Hb. apply in_app_iff in Hb as [Hb|Hb]; [done|].
        apply Hafter, (sublist_subseteq _ _ Hs). by apply list_elem_of_In.
      * intros [_ H]. apply near_duplicate_names in H. congruence.
    + split.
      * intros _. split; [done|]. by apply near_duplicate_names.
      * intros _.
        assert (Hp : (kept ++ [b]) `prefix_of`
                  (if (limit <=? Z.of_nat (length (kept ++ [b])))%Z then kept ++ [b]
                   else diversify base limit after
                          ({[name_of base b]} ∪ list_to_set (map (name_of base) kept))
                          (kept ++ [b]))).
        { destruct (_ <=? _)%Z; [done|apply diversify_prefix]. }
        destruct Hp as [more ->]. rewrite !in_app_iff. left. right. by left.
  - split; [done|]. split; [done|]. intros [Hlt _]. lia.
Qed.

End Diversity.

(** C6. The diversity step goes through all the scored candidates of the
    pool, best score first, and keeps a sub-sequence of them, the
    best-ranked one always; any two kept candidates have normalised
    (lower-cased, trimmed) names whose partial-match similarity, later name
    against earlier name, is below 92; of two candidates with the same
    non-empty normalised name the one ranked lower is never kept; at most
    [max(2k, 12)] candidates are kept, [k] being the [k] that [search]
    works with; and a candidate is kept exactly when fewer than
    [max(2k, 12)] candidates were kept before the loop reached it and its
    name is below 92 against the name of each of them.  A non-empty name is
    taken to be fully similar to itself. *)
Theorem diversity_step_keeps_distinct_names `{L : Lexical} (self : LocalRetriever.t)
    (query : string) (bank : option string) (max_fee : option Z)
    (categories : option (list string)) (k : option Z) :
  range_indexed (self_df self) ->
  (forall s, s <> "" -> (92 <= partial_ratio s s)%Q) ->
  let base := candidate_base self bank max_fee categories in
  let ranked := sort_desc (score_rows query bank base) in
  let picked := picked_labels base query bank (effective_k self k) in
  (forall i j u v, i < j -> ranked !! i = Some u -> ranked !! j = Some v ->
     (snd v <= snd u)%Q)
  /\ picked `sublist_of` map fst ranked
  /\ (forall a, map fst ranked !! 0 = Some a -> picked !! 0 = Some a)
  /\ (forall i j a b, i < j -> picked !! i = Some a -> picked !! j = Some b ->
        (partial_ratio (name_of base b) (name_of base a) < 92)%Q)
  /\ (forall i j a b, i < j ->
        map fst ranked !! i = Some a -> map fst ranked !! j = Some b ->
        name_of base a = name_of base b -> name_of base a <> "" -> ~ In b picked)
  /\ (Z.of_nat (length picked) <= Py.max (effective_k self k * 2) 12)%Z
  /\ Permutation ranked (score_rows query bank base)
  /\ map fst (score_rows query bank base) = map fst (rows base)
  /\ (forall before b sb after, ranked = before ++ (b, sb) :: after ->
        let kept := diversify base (Py.max (effective_k self k * 2) 12) before ∅ [] in
        kept `prefix_of` picked
        /\ (In b picked <->
            (Z.of_nat (length kept) < Py.max (effective_k self k * 2) 12)%Z
            /\ forall a, In a kept ->
                 (partial_ratio (name_of base b) (name_of base a) < 92)%Q)).
Proof.
  intros Hrange Hrefl base ranked picked.
  split.
  { intros i j u v Hij Hu Hv.
    apply (sorted_pair_desc ranked u v (sort_desc_sorted _)).
    by apply (pair_sublist_of_lookup _ i j). }
  split; [apply picked_labels_sublist|].
  split.
  { intros a Ha. unfold picked, picked_labels. fold base. fold ranked.
    destruct ranked as [|[a' s] rws]; [done|]. simpl in Ha. injection Ha as ->.
    by destruct (diversify_first base (Py.max (effective_k self k * 2) 12) a s rws)
      as [more ->]. }
  split.
  { intros i j a b Hij Ha Hb.
    apply (diversify_distinct base (Py.max (effective_k self k * 2) 12) ranked ∅ []);
      [done| |by apply (pair_sublist_of_lookup _ i j)].
    intros a' b' H. apply sublist_nil_r in H. done. }
  split.
  { intros i j a b Hij Ha Hb Hname Hnonempty.
    pose proof (pair_sublist_of_lookup _ i j a b Hij Ha Hb) as Hpair.
    apply pair_sublist_map_inv in Hpair as ([a' sa] & [b' sb] & Ea & Eb & Hs).
    simpl in Ea, Eb. subst a' b'.
    apply (diversify_same_name base _ ranked ∅ [] a b sa sb);
      [done|done| |done|done|by intros []].
    assert (Hp : Permutation (map fst ranked) (map fst (rows base))).
    { rewrite <- (score_rows_labels query bank base).
      apply Permutation_map, sort_desc_perm. }
    rewrite Hp. by apply candidate_base_NoDup. }
  split; [apply diversify_length; simpl; unfold Py.max; lia|].
  split; [apply sort_desc_perm|].
  split; [apply score_rows_labels|].
  intros before b sb after E kept. unfold picked, picked_labels. fold base. fold ranked.
  unfold kept. rewrite E. apply diversify_kept_iff; [|unfold Py.max; lia].
  rewrite <- E.
  assert (Hp : Permutation (map fst ranked) (map fst (rows base))).
  { rewrite <- (score_rows_labels query bank base).
    apply Permutation_map, sort_desc_perm. }
  rewrite Hp. by apply candidate_base_NoDup.
Qed.

(** ** The score of a candidate *)

Lemma keyword_loop_sum (q txt : string) (ws : list string) (acc : Q) :
  (fold_left (fun (bonus : Q) (w : string) =>
                if Py.contains w q && Py.contains w txt then (bonus + (5 # 100))%Q
                else bonus) ws acc
   == acc + inject_Z (Z.of_nat (length (List.filter (keyword_hit q txt) ws))) * (5 # 100))%Q.
Proof.
  revert acc. induction ws as [|w ws IH]; intros acc; simpl.
  - ring.
  - rewrite IH. unfold keyword_hit at 2.
    destruct (Py.contains w q && Py.contains w txt); [|reflexivity].
    cbn [length]. rewrite Nat2Z.inj_succ, <- Z.add_1_r, inject_Z_plus. ring.
Qed.

Lemma py_min_Qmin (x y c : Q) : (x == y)%Q -> (Py.min x c == Qmin y c)%Q.
Proof.
  intros Hxy. unfold Py.min. destruct (Qle_bool x c) eqn:E.
  - apply Qle_bool_iff in E. rewrite Q.min_l; [done|]. by rewrite <- Hxy.
  - assert (Hlt : (c < x)%Q).
    { apply Qnot_le_lt. intros H. apply Qle_bool_iff in H. congruence. }
    rewrite Q.min_r; [reflexivity|]. rewrite <- Hxy. by apply Qlt_le_weak.
Qed.

Lemma keyword_bonus_formula (query : string) (row : Series) :
  (_keyword_bonus query row
   == Qmin (inject_Z (Z.of_nat (length (List.filter
              (keyword_hit (Py.lower query) (keyword_text row)) keyword_synonyms)))
            * (5 # 100))
           (20 # 100))%Q.
Proof.
  unfold _keyword_bonus. apply py_min_Qmin.
  rewrite keyword_loop_sum. ring.
Qed.

Lemma scored_lookup {A} (f : nat -> A -> Q -> Q) (g : nat -> Q) (l : list (nat * A))
    (s n i : nat) (a : A) :
  l !! n = Some (i, a) ->
  map (fun p : (nat * A) * Q => let '((i, a), sim) := p in (i, f i a sim))
      (combine l (map g (seq s (length l)))) !! n
  = Some (i, f i a (g (s + n))).
Proof.
  revert s n. induction l as [|[i' a'] l IH]; intros s n H; [done|].
  destruct n as [|n]; simpl in *.
  - injection H as -> ->. by rewrite Nat.add_0_r.
  - rewrite (IH (S s) n H). by replace (S s + n) with (s + S n) by lia.
Qed.

(** In exact arithmetic, the score the loop gives a candidate is its BM25
    score in an index built over the documents of the candidate pool, plus
    0.05 for each vocabulary entry found both in the query and in the text
    [_keyword_bonus] reads (the columns "Card Name", "Description",
    "Key Benefits" and "Tags"), capped at 0.20, plus 0.25 exactly when a
    bank was requested and the candidate's bank field contains it, case
    ignored. *)
Theorem final_score_is_base_plus_bonuses `{L : Lexical} (self : LocalRetriever.t)
    (query : string) (bank : option string) (max_fee : option Z)
    (categories : option (list string)) (n i : nat) (cells : list cell) :
  let base := candidate_base self bank max_fee categories in
  rows base !! n = Some (i, cells) ->
  let row := combine (columns base) cells in
  let corpus := map (fun ir => _tokenize (_row_text (snd ir))) (iterrows base) in
  let hits := length (List.filter
                (fun w => Py.contains w (Py.lower query)
                          && Py.contains w (keyword_text row)) keyword_synonyms) in
  let bank_hit := match bank with
                  | Some b => negb (String.eqb b "")
                              && Py.contains (Py.lower b) (Py.lower (bank_of row))
                  | None => false
                  end in
  exists s : Q,
    score_rows query bank base !! n = Some (i, s)
    /\ (s == bm25_get_scores corpus (_tokenize query) n
             + Qmin (inject_Z (Z.of_nat hits) * (5 # 100)) (20 # 100)
             + (if bank_hit then 25 # 100 else 0))%Q.
Proof.
  intros base Hn row corpus hits bank_hit.
  assert (Hrow : iterrows base !! n = Some (i, row)).
  { unfold iterrows. clear -Hn. revert n Hn.
    induction (rows base) as [|r l IH]; intros [|n] Hn; simpl in *; try done.
    - by injection Hn as ->.
    - by apply IH. }
  exists (bm25_get_scores corpus (_tokenize query) n
          + _keyword_bonus query row + _bank_bonus bank row)%Q.
  split.
  - unfold score_rows. rewrite length_map.
    apply (scored_lookup
             (fun _ r sim => (sim + _keyword_bonus query r + _bank_bonus bank r)%Q)
             (bm25_get_scores corpus (_tokenize query)) (iterrows base) 0 n i row Hrow).
  - rewrite keyword_bonus_formula. fold hits.
    assert (Hb : _bank_bonus bank row = if bank_hit then 25 # 100 else 0%Q).
    { unfold _bank_bonus, bank_hit. destruct bank as [b|]; [|done].
      destruct (negb (String.eqb b "")); [|done]. simpl.
      by destruct (Py.contains _ _). }
    rewrite Hb. reflexivity.
Qed.

(** C8. Code defect: [_keyword_bonus] reads the Title-Case columns only,
    where [_row_text], [_bank_bonus] and the other readers fall back to the
    snake_case names.  On the sample table under snake_case names the
    query "cashback" finds the vocabulary word "cashback" in the tags of
    the first card, which is in the indexed text of that card, and still
    the keyword bonus is 0 and the final score is the bare BM25 score; on
    the same table under Title-Case names the bonus is 0.05. *)
Theorem keyword_bonus_missed_under_snake_case `{L : Lexical} :
  let cells := [Some "SuperSaver Gold"; Some "SBI"; Some "500";
                Some "5% cashback online"; Some "cashback"] in
  let snake := candidate_base
                 (LocalRetriever.__init__ (Some (read_csv sample_cards_snake)) 10)
                 None None None in
  let title := candidate_base sample_retriever None None None in
  let row := combine (columns snake) cells in
  rows snake !! 0 = Some (0, cells)
  /\ rows title !! 0 = Some (0, cells)
  /\ In "cashback" keyword_synonyms
  /\ str (get "tags" (Some "") row) = "cashback"
  /\ Py.contains "cashback" (Py.lower (_row_text row)) = true
  /\ _keyword_bonus "cashback" row = 0%Q
  /\ score_rows "cashback" None snake !! 0
     = Some (0, (bm25_get_scores (corpus_of snake) (_tokenize "cashback") 0 + 0 + 0)%Q)
  /\ _keyword_bonus "cashback" (combine (columns title) cells) = (5 # 100)%Q.
Proof.
  cbv zeta.
  split; [reflexivity|]. split; [reflexivity|].
  split; [vm_compute; by left|].
  split; [reflexivity|]. split; [reflexivity|].
  split; [reflexivity|]. split; [reflexivity|]. reflexivity.
Qed.

(** ** The two column-naming schemes *)

Lemma renamed_cons (T s : string) (m : list (string * string)) (c : string) :
  renamed ((T, s) :: m) c = if String.eqb T c then s else renamed m c.
Proof. unfold renamed; simpl. by destruct (String.eqb T c). Qed.

Lemma renamed_nil (c : string) : renamed [] c = c.
Proof. reflexivity. Qed.

Ltac unfold_canonical :=
  unfold canonical_names; rewrite ?renamed_cons, ?renamed_nil.

Ltac eqb_cases :=
  repeat match goal with
         | |- context [if String.eqb ?a ?b then _ else _] =>
             destruct (String.eqb_spec a b); try congruence
         end;
  repeat match goal with
         | |- context [String.eqb ?a ?b] =>
             destruct (String.eqb_spec a b); try congruence
         end.

Lemma canonical_idempotent (c : string) :
  renamed canonical_names (renamed canonical_names c) = renamed canonical_names c.
Proof.
  unfold_canonical. eqb_cases; unfold_canonical; eqb_cases.
Qed.

Lemma canonical_of_pair (T s : string) :
  In (T, s) canonical_names ->
  renamed canonical_names T = s /\ renamed canonical_names s = s.
Proof.
  simpl. intros H. repeat (destruct H as [[= <- <-]|H]; [split; reflexivity|]). done.
Qed.

Lemma not_snake (c s : string) :
  negb (existsb (String.eqb c) snake_names) = true -> In s snake_names -> c <> s.
Proof.
  intros H Hs ->. apply negb_true_iff in H.
  assert (existsb (String.eqb s) snake_names = true); [|congruence].
  apply existsb_exists. exists s. split; [done|]. apply String.eqb_refl.
Qed.

Lemma in_canonical_snake (T s : string) : In (T, s) canonical_names -> In s snake_names.
Proof. intros H. apply in_map_iff. by exists (T, s). Qed.

(** Under the Title-Case scheme a renamed column is the snake_case name
    [s] exactly when the column is its Title-Case name [T]. *)
Lemma canonical_eqb (c T s : string) :
  negb (existsb (String.eqb c) snake_names) = true ->
  In (T, s) canonical_names ->
  String.eqb (renamed canonical_names c) s = String.eqb c T.
Proof.
  intros Hc HTs.
  pose proof (not_snake c s Hc (in_canonical_snake T s HTs)) as Hne.
  simpl in HTs.
  repeat (destruct HTs as [[= <- <-]|HTs];
          [unfold_canonical; eqb_cases|]).
  done.
Qed.

(** No renamed column bears a Title-Case name of the data model. *)
Lemma canonical_not_title (c T s : string) :
  In (T, s) canonical_names -> String.eqb (renamed canonical_names c) T = false.
Proof.
  intros HTs. simpl in HTs.
  repeat (destruct HTs as [[= <- <-]|HTs];
          [unfold_canonical; eqb_cases|]).
  done.
Qed.

Ltac in_names := simpl; repeat (first [left; reflexivity | right]).

Section RenamedRows.
Variable cols : list string.
Hypothesis Htitle :
  forallb (fun c => negb (existsb (String.eqb c) snake_names)) cols = true.

Lemma get_snake_renamed (T s : string) (dflt : cell) (cells : list cell) :
  In (T, s) canonical_names ->
  get s dflt (combine (map (renamed canonical_names) cols) cells)
  = get T dflt (combine cols cells).
Proof using Htitle.
  intros HTs. revert cells Htitle.
  induction cols as [|c cs IH]; intros [|v cells] Ht; simpl in *; try done.
  apply andb_true_iff in Ht as [Hc Hcs].
  rewrite (canonical_eqb c T s Hc HTs). destruct (String.eqb c T); [done|].
  by apply IH.
Qed.

Lemma get_title_renamed (T s : string) (dflt : cell) (cells : list cell) :
  In (T, s) canonical_names ->
  get T dflt (combine (map (renamed canonical_names) cols) cells) = dflt.
Proof using Type.
  intros HTs. clear Htitle. revert cells.
  induction cols as [|c cs IH]; intros [|v cells]; simpl; try done.
  by rewrite (canonical_not_title c T s HTs).
Qed.

Lemma get_snake_title (T s : string) (dflt : cell) (cells : list cell) :
  In (T, s) canonical_names ->
  get s dflt (combine cols cells) = dflt.
Proof using Htitle.
  intros HTs. revert cells Htitle.
  induction cols as [|c cs IH]; intros [|v cells] Ht; simpl in *; try done.
  apply andb_true_iff in Ht as [Hc Hcs].
  pose proof (not_snake c s Hc (in_canonical_snake T s HTs)) as Hne.
  destruct (String.eqb_spec c s); [done|]. by apply IH.
Qed.

(** A cell read as [row.get(Title, row.get(snake, ""))] is the same cell
    before and after the columns are renamed. *)
Lemma get_pair_renamed (T s : string) (dflt : cell) (cells : list cell) :
  In (T, s) canonical_names ->
  get T (get s dflt (combine (map (renamed canonical_names) cols) cells))
    (combine (map (renamed canonical_names) cols) cells)
  = get T (get s dflt (combine cols cells)) (combine cols cells).
Proof using Htitle.
  intros HTs.
  rewrite (get_title_renamed T s _ cells HTs), (get_snake_renamed T s dflt cells HTs).
  by rewrite (get_snake_title T s dflt cells HTs).
Qed.

Lemma row_text_renamed (cells : list cell) :
  _row_text (combine (map (renamed canonical_names) cols) cells)
  = _row_text (combine cols cells).
Proof using Htitle.
  unfold _row_text.
  rewrite (get_pair_renamed "Card Name" "card_name"),
          (get_pair_renamed "Description" "description"),
          (get_pair_renamed "Key Benefits" "key_benefits"),
          (get_pair_renamed "Tags" "tags"),
          (get_pair_renamed "Eligibility" "eligibility"),
          (get_pair_renamed "Bank Name" "bank_name"),
          (get_pair_renamed "Card Type" "card_type") by in_names.
  done.
Qed.

Lemma bank_of_renamed (cells : list cell) :
  bank_of (combine (map (renamed canonical_names) cols) cells)
  = bank_of (combine cols cells).
Proof using Htitle.
  unfold bank_of. by rewrite (get_pair_renamed "Bank Name" "bank_name") by in_names.
Qed.

Lemma has_title_renamed (T s : string) :
  In (T, s) canonical_names ->
  existsb (String.eqb T) (map (renamed canonical_names) cols) = false.
Proof using Type.
  intros HTs. clear Htitle. induction cols as [|c cs IH]; simpl; [done|].
  rewrite String.eqb_sym, (canonical_not_title c T s HTs). done.
Qed.

Lemma has_snake_renamed (T s : string) :
  In (T, s) canonical_names ->
  existsb (String.eqb s) (map (renamed canonical_names) cols)
  = existsb (String.eqb T) cols.
Proof using Htitle.
  intros HTs. revert Htitle. induction cols as [|c cs IH]; simpl; intros Ht; [done|].
  apply andb_true_iff in Ht as [Hc Hcs].
  rewrite (String.eqb_sym s), (canonical_eqb c T s Hc HTs), (String.eqb_sym T).
  by rewrite IH.
Qed.

Lemma has_snake_title (T s : string) :
  In (T, s) canonical_names -> existsb (String.eqb s) cols = false.
Proof using Htitle.
  intros HTs. revert Htitle. induction cols as [|c cs IH]; simpl; intros Ht; [done|].
  apply andb_true_iff in Ht as [Hc Hcs].
  pose proof (not_snake c s Hc (in_canonical_snake T s HTs)) as Hne.
  destruct (String.eqb_spec s c); [congruence|]. by apply IH.
Qed.

End RenamedRows.

Lemma title_scheme_same_columns d d' :
  columns d' = columns d -> title_scheme d' = title_scheme d.
Proof. unfold title_scheme. by intros ->. Qed.

Lemma empty_rename m d : empty (rename m d) = empty d.
Proof. unfold empty, rename; simpl. by destruct (columns d). Qed.

Lemma select_renamed (p p' : Series -> bool) m d :
  (forall cells, p' (combine (map (renamed m) (columns d)) cells)
                 = p (combine (columns d) cells)) ->
  select p' (rename m d) = rename m (select p d).
Proof.
  intros H. unfold select, rename; simpl. f_equal.
  apply filter_ext. intros r. apply H.
Qed.

Lemma bank_step_renamed bank d :
  title_scheme d = true ->
  bank_step bank (rename canonical_names d) = rename canonical_names (bank_step bank d).
Proof.
  intros Ht. unfold bank_step. destruct bank as [b|]; [|done].
  destruct (negb (String.eqb b "")); [|done].
  rewrite (select_renamed
             (fun r => Py.contains (Py.lower b) (Py.lower (bank_of r)))
             (fun r => Py.contains (Py.lower b) (Py.lower (bank_of r)))).
  - rewrite empty_rename. by destruct (negb (empty _)).
  - intros cells. by rewrite (bank_of_renamed _ Ht).
Qed.

Lemma fee_step_renamed max_fee d :
  title_scheme d = true ->
  fee_step max_fee (rename canonical_names d) = rename canonical_names (fee_step max_fee d).
Proof.
  intros Ht. unfold fee_step. destruct max_fee as [m|]; [|done].
  destruct (negb (m =? 0)%Z); [|done].
  assert (Hin : In ("Annual Fee", "annual_fee") canonical_names) by in_names.
  assert (H1 : has_column "Annual Fee" (rename canonical_names d) = false).
  { unfold has_column. simpl. by apply (has_title_renamed _ _ _ Hin). }
  assert (H2 : has_column "annual_fee" (rename canonical_names d)
               = has_column "Annual Fee" d).
  { unfold has_column. simpl. by apply (has_snake_renamed _ Ht _ _ Hin). }
  assert (H3 : has_column "annual_fee" d = false).
  { unfold has_column. by apply (has_snake_title _ Ht _ _ Hin). }
  rewrite H1, H2.
  destruct (has_column "Annual Fee" d) eqn:E.
  - rewrite E. apply select_renamed. intros cells.
    by rewrite (get_snake_renamed _ Ht "Annual Fee" "annual_fee" _ _ Hin).
  - by rewrite H3.
Qed.

Lemma apply_filters_renamed d bank max_fee :
  title_scheme d = true ->
  _apply_filters (rename canonical_names d) bank max_fee None
  = rename canonical_names (_apply_filters d bank max_fee None).
Proof.
  intros Ht. unfold _apply_filters. simpl.
  rewrite bank_step_renamed by done.
  apply fee_step_renamed.
  by rewrite (title_scheme_same_columns d _ (bank_step_columns bank d)).
Qed.

Lemma keyword_loop_no_hit (q txt : string) (ws : list string) (acc : Q) :
  (forall w, In w ws -> Py.contains w q = false) ->
  fold_left (fun (bonus : Q) (w : string) =>
               if Py.contains w q && Py.contains w txt then (bonus + (5 # 100))%Q
               else bonus) ws acc = acc.
Proof.
  revert acc. induction ws as [|w ws IH]; intros acc H; simpl; [done|].
  rewrite (H w) by (by left). simpl. apply IH. intros w' Hw'. apply H. by right.
Qed.

Lemma keyword_bonus_no_hit (query : string) (row row' : Series) :
  (forall w, In w keyword_synonyms -> Py.contains w (Py.lower query) = false) ->
  _keyword_bonus query row = _keyword_bonus query row'.
Proof. intros H. unfold _keyword_bonus. by rewrite !keyword_loop_no_hit. Qed.

Lemma name_of_renamed base i :
  title_scheme base = true ->
  name_of (rename canonical_names base) i = name_of base i.
Proof.
  intros Ht. unfold name_of, loc. simpl.
  destruct (List.find _ (rows base)) as [r|]; [|done].
  by rewrite (get_pair_renamed _ Ht "Card Name" "card_name") by in_names.
Qed.

Section RankRenamed.
Context `{L : Lexical}.

Lemma score_rows_renamed query bank base :
  title_scheme base = true ->
  (forall w, In w keyword_synonyms -> Py.contains w (Py.lower query) = false) ->
  score_rows query bank (rename canonical_names base) = score_rows query bank base.
Proof.
  intros Ht Hq. unfold score_rows, iterrows. simpl.
  rewrite !map_map, !length_map. simpl.
  assert (Htok : map (fun r : nat * list cell =>
                   _tokenize (_row_text
                     (combine (map (renamed canonical_names) (columns base)) (snd r))))
                   (rows base)
                 = map (fun r : nat * list cell =>
                     _tokenize (_row_text (combine (columns base) (snd r)))) (rows base)).
  { apply map_ext. intros r. by rewrite (row_text_renamed _ Ht). }
  rewrite Htok. clear Htok.
  generalize (map (bm25_get_scores
                (map (fun r : nat * list cell =>
                   _tokenize (_row_text (combine (columns base) (snd r)))) (rows base))
                (_tokenize query)) (seq 0 (length (rows base)))).
  induction (rows base) as [|r l IH]; intros [|sim sims]; simpl; try done.
  rewrite IH. do 2 f_equal.
  unfold _bank_bonus. rewrite (bank_of_renamed _ Ht).
  by rewrite (keyword_bonus_no_hit query _
                (combine (columns base) (snd r)) Hq).
Qed.

Lemma diversify_names_ext base base' limit rws seen picked :
  (forall i, name_of base' i = name_of base i) ->
  diversify base' limit rws seen picked = diversify base limit rws seen picked.
Proof.
  intros H. revert seen picked.
  induction rws as [|[i s] rws IH]; intros seen picked; simpl; [done|].
  rewrite H. destruct (near_duplicate _ _); [apply IH|].
  destruct (_ <=? _)%Z; [done|]. apply IH.
Qed.

Lemma rank_renamed base query bank k :
  title_scheme base = true ->
  (forall w, In w keyword_synonyms -> Py.contains w (Py.lower query) = false) ->
  rank (rename canonical_names base) query bank k = rank base query bank k.
Proof.
  intros Ht Hq. unfold rank, picked_labels.
  rewrite score_rows_renamed by done.
  rewrite (diversify_names_ext base (rename canonical_names base))
    by (intros i; by apply name_of_renamed).
  unfold rename, head, loc_list; simpl. f_equal.
  rewrite map_map. apply map_ext. intros c. apply canonical_idempotent.
Qed.

Lemma rank_rows_in_base base query bank k r :
  In r (rows (rank base query bank k)) -> In r (rows base).
Proof.
  unfold rank. change (rows (rename ?m ?d)) with (rows d). intros H.
  pose proof (head_rows_sublist k (loc_list base (picked_labels base query bank k))) as Hs.
  apply sublist_subseteq in Hs. apply list_elem_of_In, Hs, list_elem_of_In in H.
  unfold loc_list in H; simpl in H.
  apply in_flat_map in H as (i & _ & Hr). by apply filter_In in Hr as [Hr _].
Qed.

Lemma search_rows_in_df self query bank max_fee cats k r :
  In r (rows (search self query bank max_fee cats k)) -> In r (rows (self_df self)).
Proof.
  destruct (ready self) eqn:Hready.
  - rewrite search_ready by done. intros H. apply rank_rows_in_base in H.
    pose proof (candidate_base_rows self bank max_fee cats) as Hs.
    apply sublist_subseteq in Hs. by apply list_elem_of_In, Hs, list_elem_of_In.
  - by rewrite search_not_ready.
Qed.

End RankRenamed.

Lemma empty_fillna fill d : empty (fillna fill d) = empty d.
Proof. unfold empty, fillna; simpl. by destruct (columns d), (rows d). Qed.

Lemma init_df d k :
  self_df (LocalRetriever.__init__ (Some d) k) = if empty d then empty_frame else fillna "" d.
Proof.
  unfold LocalRetriever.__init__. destruct (empty d) eqn:E; simpl; [done|].
  by rewrite empty_fillna, E.
Qed.

Lemma init_ready d k : ready (LocalRetriever.__init__ (Some d) k) = negb (empty d).
Proof.
  unfold LocalRetriever.__init__, ready. destruct (empty d) eqn:E; simpl; [done|].
  by rewrite empty_fillna, E; simpl; rewrite empty_fillna, E.
Qed.

Lemma init_k d k : self_k (LocalRetriever.__init__ (Some d) k) = k.
Proof. unfold LocalRetriever.__init__. by destruct (negb (empty _)). Qed.

(** The Title-Case or snake_case name a canonical column comes from. *)
Lemma canonical_inv (c T s : string) :
  In (T, s) canonical_names -> renamed canonical_names c = s -> c = T \/ c = s.
Proof.
  intros HTs. simpl in HTs.
  repeat (destruct HTs as [[= <- <-]|HTs];
          [unfold_canonical; eqb_cases; auto|]).
  done.
Qed.

Section SchemeEquivalence.
Context `{L : Lexical}.

Lemma candidate_base_renamed self self' bank max_fee :
  self_df self' = rename canonical_names (self_df self) ->
  title_scheme (self_df self) = true ->
  candidate_base self' bank max_fee None
  = rename canonical_names (candidate_base self bank max_fee None).
Proof.
  intros Hdf Ht. unfold candidate_base. rewrite Hdf.
  rewrite apply_filters_renamed, empty_rename by done.
  by destruct (empty _).
Qed.

Lemma search_renamed d k0 query bank max_fee k :
  title_scheme d = true ->
  (forall w, In w keyword_synonyms -> Py.contains w (Py.lower query) = false) ->
  search (LocalRetriever.__init__ (Some (rename canonical_names d)) k0)
    query bank max_fee None k
  = search (LocalRetriever.__init__ (Some d) k0) query bank max_fee None k.
Proof.
  intros Ht Hq.
  destruct (empty d) eqn:E.
  - rewrite !search_not_ready; [done| |];
      by rewrite init_ready, ?empty_rename, E.
  - rewrite !search_ready by (by rewrite init_ready, ?empty_rename, E).
    assert (Hdf : self_df (LocalRetriever.__init__ (Some (rename canonical_names d)) k0)
                  = rename canonical_names
                      (self_df (LocalRetriever.__init__ (Some d) k0))).
    { by rewrite !init_df, empty_rename, E. }
    assert (Ht' : title_scheme (self_df (LocalRetriever.__init__ (Some d) k0)) = true).
    { by rewrite init_df, E. }
    rewrite (candidate_base_renamed (LocalRetriever.__init__ (Some d) k0)) by done.
    unfold effective_k. rewrite !init_k.
    apply rank_renamed; [|done].
    by rewrite (title_scheme_same_columns _ _ (candidate_base_columns _ bank max_fee None)).
Qed.

End SchemeEquivalence.

(** C2 (amended). For a non-empty input table: the columns of the result
    are the table's columns with every Title-Case name of the data model
    replaced by its canonical name, so a canonical field is present exactly
    when the table has it under one of the two names; every cell of a
    returned record is a value, a missing source cell being the empty
    string; and, when no category list is given and the query contains no
    word of the bonus vocabulary, the same table under snake_case names
    gives the same result as under Title-Case names. *)
Theorem search_output_schema `{L : Lexical} (d : DataFrame) (k0 : Z) (query : string)
    (bank : option string) (max_fee : option Z) (categories : option (list string))
    (k : option Z) :
  empty d = false ->
  let self := LocalRetriever.__init__ (Some d) k0 in
  let out := search self query bank max_fee categories k in
  columns out = map (renamed canonical_names) (columns d)
  /\ (forall T s, In (T, s) canonical_names ->
        (In s (columns out) <-> In T (columns d) \/ In s (columns d)))
  /\ (forall r, In r (rows out) ->
        exists r0, In r0 (rows d)
                   /\ r = (fst r0, map (fun x : cell => Some (default "" x)) (snd r0)))
  /\ (title_scheme d = true ->
      (forall w, In w keyword_synonyms -> Py.contains w (Py.lower query) = false) ->
      search (LocalRetriever.__init__ (Some (rename canonical_names d)) k0)
        query bank max_fee None k
      = search self query bank max_fee None k).
Proof.
  intros Hne self out.
  assert (Hcols : columns out = map (renamed canonical_names) (columns d)).
  { unfold out. rewrite search_ready by (by unfold self; rewrite init_ready, Hne).
    unfold rank. simpl. rewrite candidate_base_columns.
    unfold self. by rewrite init_df, Hne. }
  split; [done|]. split.
  { intros T s HTs. rewrite Hcols. split.
    - intros Hin. apply in_map_iff in Hin as (c & Hc & Hin).
      destruct (canonical_inv c T s HTs Hc) as [->| ->]; auto.
    - destruct (canonical_of_pair T s HTs) as [HT Hs].
      intros [Hin|Hin]; apply in_map_iff; eauto. }
  split.
  { intros r Hr. unfold out in Hr. apply search_rows_in_df in Hr.
    unfold self in Hr. rewrite init_df, Hne in Hr.
    unfold fillna in Hr; simpl in Hr.
    apply in_map_iff in Hr as (r0 & <- & Hr0). eauto. }
  intros Ht Hq. by apply search_renamed.
Qed.

Lemma search_output_schema_witness :
  columns (search (L := overlap_lexical) sample_retriever "gold" None None None None)
  = ["card_name"; "bank_name"; "annual_fee"; "key_benefits"; "tags"].
Proof.
  apply (search_output_schema (L := overlap_lexical) (read_csv sample_cards) 10
           "gold" None None None None).
  reflexivity.
Defined.

(** C2 fails as stated.  A table with two of the ten columns gives records
    with those two fields only.  And the two schemes are not treated alike
    once a category list is given: under Title-Case names the category
    "travel" selects the one travel card, under snake_case names the
    category filter matches nothing and the whole table is ranked. *)
Lemma search_schema_not_uniform :
  ~ In "faq" (columns (search (L := overlap_lexical)
                         (LocalRetriever.__init__ (Some (read_csv sample_two_columns)) 10)
                         "gold" None None None None))
  /\ map fst (rows (search (L := overlap_lexical)
                     (LocalRetriever.__init__ (Some (read_csv sample_cards)) 10)
                     "card" None None (Some ["travel"]) None)) = [2]
  /\ map fst (rows (search (L := overlap_lexical)
                     (LocalRetriever.__init__ (Some (read_csv sample_cards_snake)) 10)
                     "card" None None (Some ["travel"]) None)) = [0; 2].
Proof.
  split; [|split; reflexivity].
  vm_compute. intros [H|[H|[]]]; discriminate.
Qed.

(** ** The properties on the sample table *)

Lemma startswith_refl (s : string) : Py.startswith s s = true.
Proof. induction s as [|c s IH]; simpl; [done|]. by rewrite Ascii.eqb_refl. Qed.

Lemma contains_refl (s : string) : Py.contains s s = true.
Proof. destruct s; simpl; [done|]. by rewrite Ascii.eqb_refl, startswith_refl. Qed.

Lemma overlap_ratio_refl (s : string) :
  (92 <= partial_ratio (Lexical := overlap_lexical) s s)%Q.
Proof. simpl. rewrite contains_refl. simpl. discriminate. Qed.

Lemma diversity_step_keeps_distinct_names_witness :
  ~ In 1 (picked_labels (L := overlap_lexical)
            (candidate_base sample_retriever None None None) "cashback" None 10).
Proof.
  destruct (diversity_step_keeps_distinct_names (L := overlap_lexical) sample_retriever
              "cashback" None None None None eq_refl
              (fun s _ => overlap_ratio_refl s))
    as (_ & _ & _ & _ & H & _).
  apply (H 0 1 0 1); [lia|reflexivity|reflexivity|reflexivity|discriminate].
Defined.

Lemma search_ordered_by_score_stable_witness :
  exists sa sb : Q,
    In (0, sa) (score_rows (L := overlap_lexical) "cashback" None
                  (candidate_base sample_retriever None None None))
    /\ In (2, sb) (score_rows (L := overlap_lexical) "cashback" None
                     (candidate_base sample_retriever None None None))
    /\ (sb <= sa)%Q
    /\ ((sa == sb)%Q -> 0 < 2).
Proof.
  apply (search_ordered_by_score_stable (L := overlap_lexical) sample_retriever
           "cashback" None None None None 0 1 0 2);
    [reflexivity | lia | reflexivity | reflexivity].
Defined.

Lemma final_score_is_base_plus_bonuses_witness :
  exists s : Q,
    score_rows (L := overlap_lexical) "airport lounge travel" (Some "hdfc")
      (candidate_base sample_retriever (Some "hdfc") None None) !! 1
    = Some (2, s)
    /\ (s == 3 + (20 # 100) + (25 # 100))%Q.
Proof.
  destruct (final_score_is_base_plus_bonuses (L := overlap_lexical) sample_retriever
              "airport lounge travel" (Some "hdfc") None None 1 2
              [Some "Travel Plus"; Some "HDFC"; Some "2,000";
               Some "airport lounge access"; Some "travel"] eq_refl)
    as (s & Hs & Heq).
  exists s. split; [exact Hs|]. rewrite Heq. vm_compute. reflexivity.
Defined.


(** * Further properties *)

(** ** The tokenizer *)

Lemma lower_ascii_idempotent (c : ascii) : Py.lower_ascii (Py.lower_ascii c) = Py.lower_ascii c.
Proof. destruct c as [[] [] [] [] [] [] [] []]; reflexivity. Qed.

Lemma lower_ascii_space (c : ascii) : Py.is_space (Py.lower_ascii c) = Py.is_space c.
Proof. destruct c as [[] [] [] [] [] [] [] []]; reflexivity. Qed.

Lemma lower_ascii_eqb (c sep : ascii) :
  Py.lower_ascii sep = sep ->
  (forall c', Py.lower_ascii c' = sep -> c' = sep) ->
  Ascii.eqb (Py.lower_ascii c) sep = Ascii.eqb c sep.
Proof.
  intros Hsep Hinj.
  destruct (Ascii.eqb_spec c sep) as [->|Hne].
  - rewrite Hsep. apply Ascii.eqb_refl.
  - destruct (Ascii.eqb_spec (Py.lower_ascii c) sep) as [E|E]; [|done].
    by apply Hinj in E.
Qed.

Lemma lower_idempotent (s : string) : Py.lower (Py.lower s) = Py.lower s.
Proof. induction s as [|c s IH]; simpl; [done|]. by rewrite lower_ascii_idempotent, IH. Qed.

Lemma slash_only_lowers_to_slash (c : ascii) : Py.lower_ascii c = "/"%char -> c = "/"%char.
Proof. destruct c as [[] [] [] [] [] [] [] []]; vm_compute; congruence. Qed.

Lemma dash_only_lowers_to_dash (c : ascii) : Py.lower_ascii c = "-"%char -> c = "-"%char.
Proof. destruct c as [[] [] [] [] [] [] [] []]; vm_compute; congruence. Qed.

Lemma replace_space_cons (sep c : ascii) (s : string) :
  Py.replace sep " " (String c s)
  = String (if Ascii.eqb c sep then " "%char else c) (Py.replace sep " " s).
Proof. simpl. by destruct (Ascii.eqb c sep). Qed.

Lemma lower_replace (sep : ascii) (s : string) :
  Py.lower_ascii sep = sep ->
  (forall c', Py.lower_ascii c' = sep -> c' = sep) ->
  Py.lower (Py.replace sep " " s) = Py.replace sep " " (Py.lower s).
Proof.
  intros Hsep Hinj. induction s as [|c s IH]; [done|].
  rewrite replace_space_cons. cbn [Py.lower]. rewrite replace_space_cons.
  rewrite (lower_ascii_eqb c sep Hsep Hinj), IH.
  by destruct (Ascii.eqb c sep).
Qed.

Lemma replace_idempotent (sep : ascii) (s : string) :
  sep <> " "%char ->
  Py.replace sep " " (Py.replace sep " " s) = Py.replace sep " " s.
Proof.
  intros Hne. induction s as [|c s IH]; [done|].
  rewrite !replace_space_cons, IH. f_equal.
  destruct (Ascii.eqb_spec c sep) as [->|Hc].
  - destruct (Ascii.eqb_spec " "%char sep); congruence.
  - by destruct (Ascii.eqb_spec c sep).
Qed.

Lemma replace_commute (a b : ascii) (s : string) :
  a <> " "%char -> b <> " "%char ->
  Py.replace a " " (Py.replace b " " s) = Py.replace b " " (Py.replace a " " s).
Proof.
  intros Ha Hb. induction s as [|c s IH]; [done|].
  rewrite !replace_space_cons, IH. f_equal.
  destruct (Ascii.eqb_spec c b), (Ascii.eqb_spec c a);
    repeat match goal with
           | |- context [Ascii.eqb ?x ?y] => destruct (Ascii.eqb_spec x y); try congruence
           end.
Qed.

(** [str.split()] never returns an empty piece, and every character of a
    piece is a non-blank character of the text. *)
Lemma split_go_pieces (P : ascii -> Prop) (cur : list ascii) (s : string) :
  Forall P cur ->
  (forall c, In c (list_ascii_of_string s) -> Py.is_space c = false -> P c) ->
  forall t, In t (Py.split_go cur s) ->
    t <> "" /\ Forall P (list_ascii_of_string t).
Proof.
  revert cur. induction s as [|c s IH]; intros cur Hcur Hs t Ht; simpl in Ht.
  - destruct cur as [|c0 cur]; [done|]. destruct Ht as [<-|[]].
    rewrite list_ascii_of_string_of_list_ascii. split.
    + intros E. apply (f_equal list_ascii_of_string) in E.
      rewrite list_ascii_of_string_of_list_ascii in E. simpl in E.
      by apply app_eq_nil in E as [_ E].
    + by apply Forall_rev.
  - destruct (Py.is_space c) eqn:Ec.
    + assert (Hrest : forall t', In t' (Py.split_go [] s) ->
                t' <> "" /\ Forall P (list_ascii_of_string t')).
      { apply IH; [constructor|]. intros c' Hc'. apply Hs. by right. }
      destruct cur as [|c0 cur]; [by apply Hrest|].
      destruct Ht as [<-|Ht]; [|by apply Hrest].
      rewrite list_ascii_of_string_of_list_ascii. split.
      * intros E. apply (f_equal list_ascii_of_string) in E.
        rewrite list_ascii_of_string_of_list_ascii in E. simpl in E.
        by apply app_eq_nil in E as [_ E].
      * by apply Forall_rev.
    + apply (IH (c :: cur)); [| |done].
      * constructor; [|done]. apply Hs; [by left|done].
      * intros c' Hc'. apply Hs. by right.
Qed.

Lemma in_replace_space (sep c : ascii) (s : string) :
  In c (list_ascii_of_string (Py.replace sep " " s)) ->
  c = " "%char \/ (c <> sep /\ In c (list_ascii_of_string s)).
Proof.
  induction s as [|c0 s IH]; [done|].
  rewrite replace_space_cons. cbn [list_ascii_of_string In].
  destruct (Ascii.eqb_spec c0 sep) as [->|Hne].
  - intros [<-|H]; [by left|]. destruct (IH H) as [?|[? ?]]; auto.
  - intros [<-|H]; [right; auto|]. destruct (IH H) as [?|[? ?]]; auto.
Qed.

Lemma in_lower (c : ascii) (s : string) :
  In c (list_ascii_of_string (Py.lower s)) -> Py.lower_ascii c = c.
Proof.
  induction s as [|c0 s IH]; simpl; [done|].
  intros [<-|H]; [apply lower_ascii_idempotent|auto].
Qed.

(** X1. Every token [_tokenize] returns is non-empty and made of characters
    that are not blank, not "/" and not "-", and not upper-case letters. *)
Theorem tokenize_tokens_are_clean (text t : string) :
  In t (_tokenize text) ->
  t <> ""
  /\ Forall (fun c => Py.is_space c = false /\ c <> "/"%char /\ c <> "-"%char
                      /\ Py.lower_ascii c = c)
            (list_ascii_of_string t).
Proof.
  unfold _tokenize. intros Ht. apply filter_In in Ht as [Ht _].
  unfold Py.split in Ht. revert t Ht. apply split_go_pieces; [constructor|].
  intros c Hc Hsp.
  apply in_replace_space in Hc as [->|[Hdash Hc]]; [done|].
  apply in_replace_space in Hc as [->|[Hslash Hc]]; [done|].
  apply in_lower in Hc. done.
Qed.

Lemma tokenize_tokens_are_clean_witness :
  "co" <> ""
  /\ Forall (fun c => Py.is_space c = false /\ c <> "/"%char /\ c <> "-"%char
                      /\ Py.lower_ascii c = c)
            (list_ascii_of_string "co").
Proof.
  apply (tokenize_tokens_are_clean "Fuel/Travel  Co-brand " "co").
  vm_compute. right. right. left. reflexivity.
Defined.

(** X2. Tokenising does not see the case of letters, nor whether words are
    separated by "/" or "-" or by a space. *)
Theorem tokenize_ignores_case_and_separators (text : string) :
  _tokenize (Py.lower text) = _tokenize text
  /\ _tokenize (Py.replace "/" " " text) = _tokenize text
  /\ _tokenize (Py.replace "-" " " text) = _tokenize text.
Proof.
  unfold _tokenize. split; [by rewrite lower_idempotent|]. split.
  - rewrite (lower_replace "/" text eq_refl slash_only_lowers_to_slash).
    by rewrite replace_idempotent.
  - rewrite (lower_replace "-" text eq_refl dash_only_lowers_to_dash).
    rewrite (replace_commute "/" "-") by done.
    by rewrite replace_idempotent.
Qed.

(** ** What the filter stage keeps *)

Lemma in_select (p : Series -> bool) (d : DataFrame) (r : nat * list cell) :
  In r (rows (select p d)) <-> In r (rows d) /\ p (combine (columns d) (snd r)) = true.
Proof. unfold select; simpl. apply filter_In. Qed.

Lemma fee_field_same_columns d d' cells :
  columns d' = columns d -> fee_field d' cells = fee_field d cells.
Proof. intros H. unfold fee_field, has_column. by rewrite H. Qed.

Lemma in_fee_step (max_fee : option Z) (d : DataFrame) (r : nat * list cell) :
  In r (rows (fee_step max_fee d)) <-> In r (rows d) /\ fee_ok d max_fee (snd r).
Proof.
  unfold fee_step, fee_ok, fee_field.
  destruct max_fee as [m|]; [|by intuition].
  destruct (Z.eqb_spec m 0) as [->|Hm]; simpl.
  { split; [|tauto]. intros H. split; [done|]. intros m x [= <-]. done. }
  destruct (has_column (if has_column _ d then _ else _) d).
  - rewrite in_select. split.
    + intros [Hin Hle]. split; [done|]. intros m' x [= <-] _ [= <-]. lia.
    + intros [Hin H]. split; [done|]. apply Z.leb_le. by eapply H.
  - split; [|tauto]. intros H. split; [done|]. intros m' x _ _ [=].
Qed.

Lemma in_category_step (cats : option (list string)) (d : DataFrame) (r : nat * list cell) :
  In r (rows (category_step cats d)) <-> In r (rows d) /\ category_ok d cats (snd r).
Proof.
  unfold category_step, category_ok.
  destruct cats as [[|c cs]|].
  - split; [|tauto]. intros H. split; [done|]. intros c cs [=].
  - destruct (rows d) as [|r0 l] eqn:E; [simpl; tauto|].
    rewrite in_select, E. split.
    + intros [Hin Hp]. split; [done|]. by intros c' cs' [= <- <-].
    + intros [Hin H]. split; [done|]. by apply H.
  - split; [|tauto]. intros H. split; [done|]. intros c cs [=].
Qed.

(** X4. The filter stage keeps exactly the rows of the bank step's pool
    that respect the fee ceiling and mention a requested category, in the
    order of the table. *)
Theorem apply_filters_keeps_exactly (d : DataFrame) (bank : option string)
    (max_fee : option Z) (categories : option (list string)) (r : nat * list cell) :
  (In r (rows (_apply_filters d bank max_fee categories))
   <-> In r (rows (bank_step bank d))
       /\ fee_ok d max_fee (snd r) /\ category_ok d categories (snd r))
  /\ rows (_apply_filters d bank max_fee categories) `sublist_of` rows d.
Proof.
  split; [|apply apply_filters_rows].
  unfold _apply_filters. rewrite in_category_step, in_fee_step.
  unfold fee_ok, category_ok.
  rewrite fee_step_columns, bank_step_columns.
  setoid_rewrite (fee_field_same_columns d (bank_step bank d) (snd r)
                    (bank_step_columns bank d)).
  tauto.
Qed.

Lemma lower_empty (s : string) : Py.lower s = "" -> s = "".
Proof. by destruct s. Qed.

Lemma contains_in_empty (s : string) : Py.contains s "" = true -> s = "".
Proof. by destruct s. Qed.

Lemma get_nil key dflt : get key dflt [] = dflt.
Proof. reflexivity. Qed.

(** X3. A bank filter alone never empties a table that has rows; and when
    some row of a table matches the requested bank, every row the bank-only
    filter keeps matches it. *)
Theorem bank_filter_alone_never_empties (d : DataFrame) (bank : option string) :
  rows d <> [] ->
  rows (_apply_filters d bank None None) <> []
  /\ (forall b r0, bank = Some b -> b <> "" ->
        In r0 (rows d) -> bank_match b d (snd r0) = true ->
        forall r, In r (rows (_apply_filters d bank None None)) ->
                  bank_match b d (snd r) = true).
Proof.
  intros Hne. unfold _apply_filters; simpl. split.
  - unfold bank_step. destruct bank as [b|]; [|done].
    destruct (negb (String.eqb b "")); [|done].
    destruct (empty (select _ d)) eqn:E; simpl; [done|].
    exact (empty_false_rows _ E).
  - intros b r0 -> Hb Hin0 Hm0 r. unfold bank_step.
    destruct (String.eqb_spec b "") as [|_]; [done|]. simpl.
    set (strict := select _ d).
    assert (Hs0 : In r0 (rows strict)) by (by apply in_select).
    assert (Hcols : columns d <> []).
    { intros Hc. unfold bank_match, bank_of in Hm0. rewrite Hc in Hm0. simpl in Hm0.
      apply contains_in_empty, lower_empty in Hm0. done. }
    assert (E : empty strict = false).
    { unfold empty. simpl columns. destruct (columns d); [done|].
      by destruct (rows strict). }
    rewrite E. cbn [negb]. intros Hr. by apply in_select in Hr as [_ Hr].
Qed.

Lemma bank_filter_alone_never_empties_witness :
  rows (_apply_filters (self_df sample_retriever) (Some "XYZ") None None) <> [].
Proof.
  apply (bank_filter_alone_never_empties (self_df sample_retriever) (Some "XYZ")).
  discriminate.
Defined.

(** ** Bounds on the bonuses *)

Lemma keyword_bonus_bounds (query : string) (row : Series) :
  (0 <= _keyword_bonus query row)%Q /\ (_keyword_bonus query row <= 20 # 100)%Q.
Proof.
  rewrite keyword_bonus_formula. split.
  - apply Q.min_glb; [|discriminate].
    apply Qmult_le_0_compat; [|discriminate].
    change 0%Q with (inject_Z 0). rewrite <- Zle_Qle. lia.
  - apply Q.le_min_r.
Qed.

Lemma bank_bonus_bounds (bank : option string) (row : Series) :
  (0 <= _bank_bonus bank row)%Q /\ (_bank_bonus bank row <= 25 # 100)%Q.
Proof.
  unfold _bank_bonus. destruct bank as [b|]; [|split; discriminate].
  destruct (negb _); [|split; discriminate].
  destruct (Py.contains _ _); split; discriminate.
Qed.

Section ScoreBounds.
Context `{L : Lexical}.

Lemma score_rows_length query bank base :
  length (score_rows query bank base) = length (rows base).
Proof.
  rewrite <- (length_map fst (score_rows query bank base)), score_rows_labels.
  apply length_map.
Qed.

Lemma iterrows_lookup base n :
  iterrows base !! n
  = option_map (fun r => (fst r, combine (columns base) (snd r))) (rows base !! n).
Proof.
  unfold iterrows. revert n. by induction (rows base) as [|r l IH]; intros [|n]; simpl.
Qed.

(** The score at position [n] of the scoring loop. *)
Lemma score_rows_lookup query bank base n i s :
  score_rows query bank base !! n = Some (i, s) ->
  exists cells,
    rows base !! n = Some (i, cells)
    /\ s = (bm25_get_scores
              (map (fun ir => _tokenize (_row_text (snd ir))) (iterrows base))
              (_tokenize query) n
            + _keyword_bonus query (combine (columns base) cells)
            + _bank_bonus bank (combine (columns base) cells))%Q.
Proof.
  intros Hs.
  assert (Hlt : n < length (rows base)).
  { rewrite <- (score_rows_length query bank base). by apply lookup_lt_Some in Hs. }
  apply lookup_lt_is_Some in Hlt as [[i' cells] Hr].
  assert (Hrow : iterrows base !! n = Some (i', combine (columns base) cells)).
  { by rewrite iterrows_lookup, Hr. }
  pose proof (scored_lookup
                (fun _ r sim => (sim + _keyword_bonus query r + _bank_bonus bank r)%Q)
                (bm25_get_scores
                   (map (fun ir => _tokenize (_row_text (snd ir))) (iterrows base))
                   (_tokenize query))
                (iterrows base) 0 n i' _ Hrow) as Hlook.
  unfold score_rows in Hs. rewrite length_map in Hs.
  rewrite Hlook in Hs. injection Hs as <- <-. by exists cells.
Qed.

End ScoreBounds.

(** X6. The keyword bonus of a candidate lies between 0 and 0.20, its
    bank bonus is 0 or 0.25, and its final score is never below its BM25
    score; it is the BM25 score when both bonuses are 0. *)
Theorem bonuses_bounded_and_never_lower_score `{L : Lexical} (query : string)
    (bank : option string) (base : DataFrame) (n i : nat) (s : Q) :
  score_rows query bank base !! n = Some (i, s) ->
  exists cells,
    rows base !! n = Some (i, cells)
    /\ let row := combine (columns base) cells in
       let sim := bm25_get_scores (corpus_of base) (_tokenize query) n in
       (0 <= _keyword_bonus query row)%Q
       /\ (_keyword_bonus query row <= 20 # 100)%Q
       /\ (_bank_bonus bank row = 0%Q \/ _bank_bonus bank row = (25 # 100)%Q)
       /\ (sim <= s)%Q
       /\ ((_keyword_bonus query row == 0)%Q -> _bank_bonus bank row = 0%Q ->
           (s == sim)%Q).
Proof.
  intros Hs. apply score_rows_lookup in Hs as (cells & Hr & ->).
  exists cells. split; [done|]. cbv zeta. fold (corpus_of base).
  destruct (keyword_bonus_bounds query (combine (columns base) cells)) as [Hk0 Hk1].
  destruct (bank_bonus_bounds bank (combine (columns base) cells)) as [Hb0 Hb1].
  split; [done|]. split; [done|]. split.
  { unfold _bank_bonus. destruct bank as [b|]; [|by left].
    destruct (negb _); [|by left]. destruct (Py.contains _ _); [by right|by left]. }
  set (sim := bm25_get_scores _ _ _).
  set (kb := _keyword_bonus _ _) in *. set (bb := _bank_bonus _ _) in *.
  split.
  - apply Qle_trans with (sim + 0 + 0)%Q.
    + rewrite !Qplus_0_r. apply Qle_refl.
    + apply Qplus_le_compat; [|done]. by apply Qplus_le_compat; [apply Qle_refl|].
  - intros Ek Eb. rewrite Ek, Eb. ring.
Qed.

Lemma bonuses_bounded_and_never_lower_score_witness :
  exists cells,
    rows (candidate_base sample_retriever (Some "hdfc") None None) !! 1 = Some (2, cells)
    /\ (_keyword_bonus "airport lounge travel"
          (combine (columns (candidate_base sample_retriever (Some "hdfc") None None))
             cells) <= 20 # 100)%Q.
Proof.
  edestruct (bonuses_bounded_and_never_lower_score (L := overlap_lexical)
               "airport lounge travel" (Some "hdfc")
               (candidate_base sample_retriever (Some "hdfc") None None) 1 2)
    as (cells & Hr & _ & Hk & _).
  - vm_compute; reflexivity.
  - exists cells. split; [exact Hr | exact Hk].
Defined.

(** ** What [search] returns *)

(** X7. A retriever built without a table, or from a table with no rows or
    no columns, answers every query with the empty table. *)
Theorem search_on_empty_dataset `{L : Lexical} (df : option DataFrame) (k0 : Z)
    (query : string) (bank : option string) (max_fee : option Z)
    (categories : option (list string)) (k : option Z) :
  match df with
  | Some d => empty d = true
  | None => True
  end ->
  search (LocalRetriever.__init__ df k0) query bank max_fee categories k = empty_frame.
Proof.
  intros H. apply search_not_ready.
  destruct df as [d|]; [|reflexivity].
  by rewrite init_ready, H.
Qed.

Lemma search_on_empty_dataset_witness :
  search (L := overlap_lexical)
    (LocalRetriever.__init__ (Some {| columns := ["Card Name"]; rows := [] |}) 10)
    "cashback" (Some "SBI") (Some 500%Z) (Some ["travel"]) (Some 3%Z)
  = empty_frame.
Proof.
  apply (search_on_empty_dataset (L := overlap_lexical)
           (Some {| columns := ["Card Name"]; rows := [] |}) 10).
  reflexivity.
Defined.

Section Outcome.
Context `{L : Lexical}.

Lemma search_outcome_ready self query bank max_fee cats k :
  ready self = true ->
  has_token (corpus_of (candidate_base self bank max_fee cats)) = true ->
  search_outcome self query bank max_fee cats k
  = Some (search self query bank max_fee cats k).
Proof. unfold search_outcome, search. by intros -> ->. Qed.

Lemma search_rows_not_nil self query bank max_fee cats k :
  ready self = true ->
  (0 < effective_k self k)%Z ->
  rows (search self query bank max_fee cats k) <> [].
Proof.
  intros Hready Hk. rewrite search_ready by done.
  apply rank_not_empty; [|done].
  apply empty_false_rows, candidate_base_not_empty.
  by apply ready_not_empty.
Qed.

End Outcome.

(** X8. On a dataset that has rows, with a positive effective [k], a call
    of [search] whose candidate pool has a token raises nothing and returns
    at least one record, whatever the filters. *)
Theorem search_returns_something `{L : Lexical} (self : LocalRetriever.t)
    (query : string) (bank : option string) (max_fee : option Z)
    (categories : option (list string)) (k : option Z) :
  ready self = true ->
  has_token (corpus_of (candidate_base self bank max_fee categories)) = true ->
  (0 < effective_k self k)%Z ->
  exists d, search_outcome self query bank max_fee categories k = Some d
            /\ rows d <> [].
Proof.
  intros Hready Htok Hk. exists (search self query bank max_fee categories k).
  split; [by apply search_outcome_ready | by apply search_rows_not_nil].
Qed.

Lemma search_returns_something_witness :
  exists d, search_outcome (L := overlap_lexical) sample_retriever "zzz" (Some "Nobank")
              (Some 1%Z) (Some ["nothing"]) None = Some d
            /\ rows d <> [].
Proof.
  apply (search_returns_something (L := overlap_lexical) sample_retriever "zzz"
           (Some "Nobank") (Some 1%Z) (Some ["nothing"]) None); reflexivity.
Defined.

(** Without a token in the pool the call raises: the fee ceiling 100
    leaves the one card that has no text. *)
Example search_raises_on_pool_without_token `{L : Lexical} :
  let self := LocalRetriever.__init__ (Some (read_csv sample_blank_card)) 10 in
  LocalRetriever.init_outcome (Some (read_csv sample_blank_card)) 10 = Some self
  /\ ready self = true
  /\ map fst (rows (candidate_base self None (Some 100%Z) None)) = [1]
  /\ search_outcome self "gold" None (Some 100%Z) None None = None.
Proof. cbv zeta. split; [reflexivity|]. split; [reflexivity|]. split; reflexivity. Qed.

Section SearchRows.
Context `{L : Lexical}.

Lemma sorted_labels_NoDup query bank base :
  NoDup (map fst (rows base)) ->
  NoDup (map fst (sort_desc (score_rows query bank base))).
Proof.
  intros Hnd.
  assert (Hp : Permutation (map fst (sort_desc (score_rows query bank base)))
                 (map fst (rows base))).
  { rewrite <- (score_rows_labels query bank base).
    apply Permutation_map, sort_desc_perm. }
  by rewrite Hp.
Qed.

Lemma rank_labels_prefix base query bank k :
  NoDup (map fst (rows base)) ->
  (0 <= k)%Z ->
  map fst (rows (rank base query bank k))
  = take (Z.to_nat k) (picked_labels base query bank k).
Proof.
  intros Hnd Hk. unfold rank. change (rows (rename ?m ?d)) with (rows d).
  unfold head. cbn [rows]. destruct (Z.leb_spec 0 k); [|lia].
  rewrite <- firstn_map.
  rewrite loc_list_labels; [done|done|apply picked_labels_in_base].
Qed.

End SearchRows.

(** X9. Every record [search] returns is a row of the retriever's table,
    and no row is returned twice. *)
Theorem search_returns_rows_once `{L : Lexical} (self : LocalRetriever.t)
    (query : string) (bank : option string) (max_fee : option Z)
    (categories : option (list string)) (k : option Z) :
  range_indexed (self_df self) ->
  (forall r, In r (rows (search self query bank max_fee categories k)) ->
             In r (rows (self_df self)))
  /\ NoDup (map fst (rows (search self query bank max_fee categories k))).
Proof.
  intros Hrange. split; [intros r; apply search_rows_in_df|].
  destruct (ready self) eqn:Hready.
  - rewrite search_ready by done.
    assert (Hnd : NoDup (map fst (rows (candidate_base self bank max_fee categories))))
      by by apply candidate_base_NoDup.
    eapply sublist_NoDup; [|by apply rank_labels_sublist].
    by apply sorted_labels_NoDup.
  - rewrite search_not_ready by done. constructor.
Qed.

Lemma search_returns_rows_once_witness :
  NoDup (map fst (rows (search (L := overlap_lexical) sample_retriever "cashback"
                          None None None None))).
Proof.
  apply (search_returns_rows_once (L := overlap_lexical) sample_retriever "cashback"
           None None None None).
  reflexivity.
Defined.

(** X10. When at least one row passes the filter stage, every record
    [search] returns passed it: it is in the bank step's pool, respects the
    fee ceiling and mentions a requested category. *)
Theorem search_respects_filters `{L : Lexical} (self : LocalRetriever.t)
    (query : string) (bank : option string) (max_fee : option Z)
    (categories : option (list string)) (k : option Z) (r : nat * list cell) :
  rows (_apply_filters (self_df self) bank max_fee categories) <> [] ->
  In r (rows (search self query bank max_fee categories k)) ->
  In r (rows (bank_step bank (self_df self)))
  /\ fee_ok (self_df self) max_fee (snd r)
  /\ category_ok (self_df self) categories (snd r).
Proof.
  intros Hne Hr.
  destruct (ready self) eqn:Hready; [|by rewrite search_not_ready in Hr].
  rewrite search_ready in Hr by done. apply rank_rows_in_base in Hr.
  unfold candidate_base in Hr.
  assert (E : empty (_apply_filters (self_df self) bank max_fee categories) = false).
  { pose proof (ready_not_empty self Hready) as Hd.
    destruct (empty (_apply_filters _ _ _ _)) eqn:E; [|done].
    apply (empty_same_columns (self_df self)) in E;
      [done|by apply apply_filters_columns|done]. }
  rewrite E in Hr. unfold _apply_filters in Hr.
  apply in_category_step in Hr as [Hr Hc]. apply in_fee_step in Hr as [Hr Hf].
  split; [done|]. split.
  - intros m x Hm Hm0 Hx. apply (Hf m x Hm Hm0).
    by rewrite (fee_field_same_columns (self_df self) _ _ (bank_step_columns _ _)).
  - intros c cs Hcs. specialize (Hc c cs Hcs).
    by rewrite fee_step_columns, bank_step_columns in Hc.
Qed.

Lemma search_respects_filters_witness :
  fee_ok (self_df sample_retriever) (Some 1000%Z)
    [Some "SuperSaver Gold"; Some "SBI"; Some "500"; Some "5% cashback online";
     Some "cashback"].
Proof.
  apply (search_respects_filters (L := overlap_lexical) sample_retriever "cashback"
           None (Some 1000%Z) None None (0, _)).
  - discriminate.
  - vm_compute. left. reflexivity.
Defined.

Section FirstRecord.
Context `{L : Lexical}.

Lemma search_first_best self query bank max_fee categories k :
  ready self = true ->
  range_indexed (self_df self) ->
  (0 < effective_k self k)%Z ->
  exists (a : nat) (sa : Q),
    map fst (rows (search self query bank max_fee categories k)) !! 0 = Some a
    /\ In (a, sa) (score_rows query bank (candidate_base self bank max_fee categories))
    /\ forall b sb,
         In (b, sb) (score_rows query bank (candidate_base self bank max_fee categories)) ->
         (sb <= sa)%Q.
Proof.
  intros Hready Hrange Hk. rewrite search_ready by done.
  set (base := candidate_base self bank max_fee categories).
  assert (Hnd : NoDup (map fst (rows base))) by by apply candidate_base_NoDup.
  rewrite rank_labels_prefix by (done || lia).
  pose proof (sort_desc_perm (score_rows query bank base)) as Hperm.
  pose proof (sort_desc_sorted (score_rows query bank base)) as Hsorted.
  unfold picked_labels.
  destruct (sort_desc (score_rows query bank base)) as [|[a sa] rws] eqn:E.
  { exfalso. apply Permutation_nil in Hperm.
    pose proof (score_rows_length query bank base) as Hlen. rewrite Hperm in Hlen.
    pose proof (empty_false_rows _ (candidate_base_not_empty self bank max_fee categories
                                     (ready_not_empty self Hready))) as Hrows.
    fold base in Hrows. destruct (rows base); done. }
  destruct (diversify_first base (Py.max (effective_k self k * 2) 12) a sa rws)
    as [more ->].
  exists a, sa. split.
  { destruct (Z.to_nat (effective_k self k)) eqn:Ek; [lia|done]. }
  split.
  { eapply Permutation_in; [exact Hperm|]. by left. }
  intros b sb Hb.
  apply (Permutation_in _ (Permutation_sym Hperm)) in Hb.
  apply StronglySorted_inv in Hsorted as [_ Hall].
  destruct Hb as [[= -> ->]|Hb]; [apply Qle_refl|].
  rewrite List.Forall_forall in Hall. exact (Hall _ Hb).
Qed.

End FirstRecord.

(** X11. With a positive effective [k], a call of [search] whose candidate
    pool has a token returns records, and the first of them is a candidate
    whose final score no candidate of the pool exceeds. *)
Theorem search_first_is_best `{L : Lexical} (self : LocalRetriever.t)
    (query : string) (bank : option string) (max_fee : option Z)
    (categories : option (list string)) (k : option Z) :
  ready self = true ->
  range_indexed (self_df self) ->
  has_token (corpus_of (candidate_base self bank max_fee categories)) = true ->
  (0 < effective_k self k)%Z ->
  exists (d : DataFrame) (a : nat) (sa : Q),
    search_outcome self query bank max_fee categories k = Some d
    /\ map fst (rows d) !! 0 = Some a
    /\ In (a, sa) (score_rows query bank (candidate_base self bank max_fee categories))
    /\ forall b sb,
         In (b, sb) (score_rows query bank (candidate_base self bank max_fee categories)) ->
         (sb <= sa)%Q.
Proof.
  intros Hready Hrange Htok Hk.
  destruct (search_first_best self query bank max_fee categories k Hready Hrange Hk)
    as (a & sa & H).
  exists (search self query bank max_fee categories k), a, sa.
  split; [by apply search_outcome_ready | done].
Qed.

Lemma search_first_is_best_witness :
  exists (d : DataFrame) (a : nat) (sa : Q),
    search_outcome (L := overlap_lexical) sample_retriever "travel lounge"
      None None None None = Some d
    /\ map fst (rows d) !! 0 = Some a
    /\ In (a, sa) (score_rows (L := overlap_lexical) "travel lounge" None
                     (candidate_base sample_retriever None None None))
    /\ forall b sb,
         In (b, sb) (score_rows (L := overlap_lexical) "travel lounge" None
                       (candidate_base sample_retriever None None None)) ->
         (sb <= sa)%Q.
Proof.
  apply (search_first_is_best (L := overlap_lexical) sample_retriever "travel lounge"
           None None None None); reflexivity.
Defined.

(** ** Asking for fewer records *)

Lemma take_flat_map_take {A B} (f : A -> list B) (l : list A) (k n : nat) :
  (forall a, In a l -> f a <> []) ->
  k <= n ->
  take k (flat_map f (take n l)) = take k (flat_map f l).
Proof.
  revert k n. induction l as [|a l IH]; intros k n Hne Hkn.
  - by destruct n.
  - destruct n as [|n].
    + assert (k = 0) as -> by lia. done.
    + simpl. rewrite !take_app. f_equal.
      assert (Ha : f a <> []) by (apply Hne; by left).
      apply IH; [intros a' Ha'; apply Hne; by right|].
      destruct (f a); [done|]. simpl. lia.
Qed.

Section PoolLimit.
Context `{L : Lexical}.

(** A lower limit on the pool gives a prefix of what a higher limit
    gives. *)
Lemma diversify_limit_prefix base (l1 l2 : Z) rws seen picked :
  (l1 <= l2)%Z ->
  (Z.of_nat (length picked) < l1)%Z ->
  diversify base l1 rws seen picked
  = take (Z.to_nat l1) (diversify base l2 rws seen picked).
Proof.
  intros Hle. revert seen picked.
  induction rws as [|[i s] rws IH]; intros seen picked Hlen; simpl.
  - rewrite take_ge; [done|lia].
  - destruct (near_duplicate _ _); [by apply IH|].
    destruct (Z.leb_spec l1 (Z.of_nat (length (picked ++ [i])))) as [H1|H1].
    + assert (Hl : length (picked ++ [i]) = Z.to_nat l1).
      { rewrite length_app in *. simpl in *. lia. }
      destruct (Z.leb_spec l2 (Z.of_nat (length (picked ++ [i])))) as [H2|H2].
      * rewrite take_ge; [done|lia].
      * destruct (diversify_prefix base l2 rws ({[name_of base i]} ∪ seen)
                    (picked ++ [i])) as [more ->].
        by rewrite take_app_length'.
    + destruct (Z.leb_spec l2 (Z.of_nat (length (picked ++ [i])))) as [H2|H2]; [lia|].
      by apply IH.
Qed.

Lemma rank_smaller_k base query bank (k1 k2 : Z) :
  (0 < k1)%Z -> (k1 <= k2)%Z ->
  rows (rank base query bank k1) = take (Z.to_nat k1) (rows (rank base query bank k2)).
Proof.
  intros H1 H12. unfold rank. change (rows (rename ?m ?d)) with (rows d).
  unfold head. cbn [rows]. unfold loc_list. cbn [rows].
  destruct (Z.leb_spec 0 k1); [|lia]. destruct (Z.leb_spec 0 k2); [|lia].
  rewrite take_take, Nat.min_l by lia.
  unfold picked_labels.
  rewrite (diversify_limit_prefix base (Py.max (k1 * 2) 12) (Py.max (k2 * 2) 12))
    by (unfold Py.max; simpl; lia).
  apply take_flat_map_take; [|unfold Py.max; lia].
  intros i Hi Hnil.
  apply (picked_labels_in_base base query bank k2) in Hi.
  by apply (loc_list_cons_not_nil base i [] Hi); unfold loc_list; simpl;
    rewrite app_nil_r.
Qed.

End PoolLimit.

(** X12. Asking for fewer records gives the beginning of the longer answer:
    for [0 < k1 <= k2], the records of [search] with [k1] are the first
    [k1] records of [search] with [k2].  In particular the cap
    [max(2k, 12)] on the working pool never changes which records come
    first. *)
Theorem search_smaller_k_is_prefix `{L : Lexical} (self : LocalRetriever.t)
    (query : string) (bank : option string) (max_fee : option Z)
    (categories : option (list string)) (k1 k2 : Z) :
  (0 < k1)%Z -> (k1 <= k2)%Z ->
  rows (search self query bank max_fee categories (Some k1))
  = take (Z.to_nat k1) (rows (search self query bank max_fee categories (Some k2))).
Proof.
  intros H1 H12.
  destruct (ready self) eqn:Hready.
  - rewrite !search_ready by done. unfold effective_k.
    destruct (Z.eqb_spec k1 0); [lia|]. destruct (Z.eqb_spec k2 0); [lia|].
    by apply rank_smaller_k.
  - rewrite !search_not_ready by done. simpl. by destruct (Z.to_nat k1).
Qed.

Lemma search_smaller_k_is_prefix_witness :
  rows (search (L := overlap_lexical) sample_retriever "card" None None None (Some 1%Z))
  = take 1 (rows (search (L := overlap_lexical) sample_retriever "card" None None None
                    (Some 2%Z))).
Proof.
  apply (search_smaller_k_is_prefix (L := overlap_lexical) sample_retriever "card"
           None None None 1 2); lia.
Defined.

(** ** Tables without the Title-Case text columns *)

Lemma get_absent (key : string) (dflt : cell) (cols : list string) (cells : list cell) :
  existsb (String.eqb key) cols = false -> get key dflt (combine cols cells) = dflt.
Proof.
  revert cells. induction cols as [|c cs IH]; intros [|v cells] H; simpl in *; try done.
  apply orb_false_iff in H as [Hc Hcs]. rewrite String.eqb_sym, Hc. by apply IH.
Qed.

Lemma keyword_loop_no_text_hit (q txt : string) (ws : list string) (acc : Q) :
  (forall w, In w ws -> Py.contains w txt = false) ->
  fold_left (fun (bonus : Q) (w : string) =>
               if Py.contains w q && Py.contains w txt then (bonus + (5 # 100))%Q
               else bonus) ws acc = acc.
Proof.
  revert acc. induction ws as [|w ws IH]; intros acc H; simpl; [done|].
  rewrite (H w) by (by left). rewrite andb_false_r.
  apply IH. intros w' Hw'. apply H. by right.
Qed.

(** X13. On a table that has none of the columns "Card Name",
    "Description", "Key Benefits" and "Tags" (a table under snake_case
    names, for one), the keyword bonus is 0 for every query and row, and a
    category list whose entries all contain a non-blank character selects
    no row. *)
Theorem no_title_columns_no_bonus_no_category (d : DataFrame) (query : string)
    (c : string) (cs : list string) (cells : list cell) :
  has_column "Card Name" d = false ->
  has_column "Description" d = false ->
  has_column "Key Benefits" d = false ->
  has_column "Tags" d = false ->
  _keyword_bonus query (combine (columns d) cells) = 0%Q
  /\ ((forall c', In c' (c :: cs) -> Py.contains (Py.lower c') "  " = false) ->
      rows (category_step (Some (c :: cs)) d) = []).
Proof.
  unfold has_column. intros Hn Hd Hk Ht.
  split.
  - unfold _keyword_bonus, keyword_text.
    rewrite !get_absent by done. rewrite keyword_loop_no_text_hit; [reflexivity|].
    apply List.Forall_forall. vm_compute. repeat constructor.
  - intros Hcats. unfold category_step. destruct (rows d) eqn:Erows; [done|].
    apply select_none. intros r _.
    unfold in_cats. rewrite !get_absent by done.
    change (Py.lower (Py.join " " [str (Some ""); str (Some ""); str (Some "")]))
      with "  ".
    apply not_true_is_false. intros E.
    apply existsb_exists in E as (x & Hx & Hc).
    apply in_map_iff in Hx as (c' & <- & Hc'). by rewrite (Hcats c' Hc') in Hc.
Qed.

Lemma no_title_columns_no_bonus_no_category_witness :
  _keyword_bonus "cashback travel"
    (combine (columns (read_csv sample_cards_snake))
       [Some "SuperSaver Gold"; Some "SBI"; Some "500"; Some "5% cashback online";
        Some "cashback"]) = 0%Q.
Proof.
  apply (no_title_columns_no_bonus_no_category (read_csv sample_cards_snake)
           "cashback travel" "travel" []); reflexivity.
Defined.

(** ** The store and the shared retriever objects *)

Lemma init_retriever_live env force p σ :
  cache_live σ ->
  is_Some (heap (CreditCardVectorStore.__init__ env force p σ).2
             !! retriever (CreditCardVectorStore.__init__ env force p σ).1).
Proof.
  intros Hlive. unfold CreditCardVectorStore.__init__.
  destruct force; simpl.
  - rewrite lookup_insert_eq. eauto.
  - destruct (_RETRIEVER_CACHE σ !! _) as [r|] eqn:E; simpl.
    + by apply (Hlive _ _ E).
    + rewrite lookup_insert_eq. eauto.
Qed.

Lemma init_keeps_objects env force p σ r :
  is_Some (heap σ !! r) ->
  heap (CreditCardVectorStore.__init__ env force p σ).2 !! r = heap σ !! r.
Proof.
  intros Hr. unfold CreditCardVectorStore.__init__.
  assert (Hne : fresh (dom (heap σ)) <> r).
  { intros <-. apply elem_of_dom in Hr. by apply (is_fresh (dom (heap σ))). }
  destruct force; simpl.
  - by rewrite lookup_insert_ne.
  - destruct (_RETRIEVER_CACHE σ !! _); simpl; [done|]. by rewrite lookup_insert_ne.
Qed.

Lemma init_cache_live env force p σ :
  cache_live σ -> cache_live (CreditCardVectorStore.__init__ env force p σ).2.
Proof.
  intros Hlive key r Hkey.
  destruct (decide (key = cache_key (resolve_path env p))) as [->|Hne].
  - rewrite init_caches_retriever in Hkey.
    injection Hkey as <-. by apply init_retriever_live.
  - assert (Hold : _RETRIEVER_CACHE σ !! key = Some r).
    { revert Hkey. unfold CreditCardVectorStore.__init__.
      destruct force; simpl.
      - by rewrite lookup_insert_ne.
      - destruct (_RETRIEVER_CACHE σ !! cache_key _); simpl; [done|].
        by rewrite lookup_insert_ne. }
    rewrite init_keeps_objects; by apply (Hlive key).
Qed.

Lemma as_retriever_cache_live (s : CreditCardVectorStore.t) (k : Z) (σ : Process) :
  cache_live σ -> cache_live (as_retriever s k σ).2.
Proof.
  intros Hlive key r Hkey. unfold as_retriever in *. simpl in *.
  destruct (Hlive key r Hkey) as [x Hx].
  destruct (decide (retriever s = r)) as [->|Hne].
  - rewrite lookup_alter_eq, Hx. simpl. eauto.
  - rewrite lookup_alter_ne by done. eauto.
Qed.

(** X14. In a process where every cache entry refers to an existing
    retriever object, this stays so after a store is constructed and after
    [as_retriever]; and the retriever of a newly constructed store
    exists. *)
Theorem cache_entries_stay_live (env : Env) (force : bool) (p : option string)
    (k : Z) (σ : Process) :
  cache_live σ ->
  let built := CreditCardVectorStore.__init__ env force p σ in
  cache_live built.2
  /\ is_Some (heap built.2 !! retriever built.1)
  /\ cache_live (as_retriever built.1 k built.2).2.
Proof.
  intros Hlive built.
  assert (Hbuilt : cache_live built.2) by by apply init_cache_live.
  split; [done|]. split; [by apply init_retriever_live|].
  by apply as_retriever_cache_live.
Qed.

Lemma new_process_live : cache_live new_process.
Proof. intros key r H. unfold new_process in H. cbn in H. by rewrite lookup_empty in H. Qed.

Lemma cache_entries_stay_live_witness :
  cache_live (CreditCardVectorStore.__init__ sample_env false None new_process).2.
Proof.
  apply (cache_entries_stay_live sample_env false None 5 new_process new_process_live).
Defined.

(** X15. The retriever is shared, not copied: when a second store is
    constructed for the same dataset identity without the force flag,
    [as_retriever(k)] on the second store changes the [k] of the retriever
    the first store holds, and leaves its table as it was. *)
Theorem as_retriever_sets_k_on_shared_retriever (env1 env2 : Env) (force : bool)
    (p1 p2 : option string) (k : Z) (σ : Process) :
  cache_live σ ->
  resolve_path env2 p2 = resolve_path env1 p1 ->
  let first := CreditCardVectorStore.__init__ env1 force p1 σ in
  let second := CreditCardVectorStore.__init__ env2 false p2 first.2 in
  let after := (as_retriever second.1 k second.2).2 in
  exists r0 r,
    heap first.2 !! retriever first.1 = Some r0
    /\ heap after !! retriever first.1 = Some r
    /\ self_k r = k
    /\ self_df r = self_df r0.
Proof.
  intros Hlive Hpath first second after.
  destruct (init_retriever_live env1 force p1 σ Hlive) as [r0 Hr0]. fold first in Hr0.
  destruct (init_cached env2 p2 first.2 (retriever first.1)) as [Hsame Hstate].
  { rewrite Hpath. apply init_caches_retriever. }
  fold second in Hsame, Hstate.
  exists r0. eexists. split; [done|].
  unfold after, as_retriever. simpl. rewrite Hsame, Hstate.
  rewrite lookup_alter_eq, Hr0. simpl. done.
Qed.

Lemma as_retriever_sets_k_on_shared_retriever_witness :
  exists r0 r,
    heap (CreditCardVectorStore.__init__ sample_env false None new_process).2
      !! retriever (CreditCardVectorStore.__init__ sample_env false None new_process).1
    = Some r0
    /\ heap (as_retriever
               (CreditCardVectorStore.__init__ sample_env false (Some "cards.csv")
                  (CreditCardVectorStore.__init__ sample_env false None new_process).2).1
               3
               (CreditCardVectorStore.__init__ sample_env false (Some "cards.csv")
                  (CreditCardVectorStore.__init__ sample_env false None new_process).2).2).2
         !! retriever (CreditCardVectorStore.__init__ sample_env false None new_process).1
       = Some r
    /\ self_k r = 3%Z
    /\ self_df r = self_df r0.
Proof.
  apply (as_retriever_sets_k_on_shared_retriever sample_env sample_env false None
           (Some "cards.csv") 3 new_process new_process_live).
  reflexivity.
Defined.

Lemma string_append_list (a b : string) :
  list_ascii_of_string (a ++ b) = (list_ascii_of_string a ++ list_ascii_of_string b)%list.
Proof. induction a as [|c a IH]; simpl; [done|]. by rewrite <- IH. Qed.

Lemma cache_key_injective (p q : string) : cache_key p = cache_key q -> p = q.
Proof.
  unfold cache_key. intros H.
  apply (f_equal list_ascii_of_string) in H. rewrite !string_append_list in H.
  apply app_inv_tail in H.
  apply (f_equal string_of_list_ascii) in H.
  by rewrite !string_of_list_ascii_of_string in H.
Qed.

(** X16. Constructing a store for one dataset path, forced or not, changes
    no cache entry of any other path and no retriever object that already
    exists. *)
Theorem store_leaves_other_datasets_alone (env : Env) (force : bool)
    (p : option string) (σ : Process) (other : string) (r : nat) :
  other <> resolve_path env p ->
  let built := CreditCardVectorStore.__init__ env force p σ in
  _RETRIEVER_CACHE built.2 !! cache_key other = _RETRIEVER_CACHE σ !! cache_key other
  /\ (is_Some (heap σ !! r) -> heap built.2 !! r = heap σ !! r).
Proof.
  intros Hne built. split; [|apply init_keeps_objects].
  assert (Hkey : cache_key (resolve_path env p) <> cache_key other).
  { intros H. by apply cache_key_injective in H. }
  unfold built, CreditCardVectorStore.__init__.
  destruct force; simpl.
  - by rewrite lookup_insert_ne.
  - destruct (_RETRIEVER_CACHE σ !! cache_key (resolve_path env p)); simpl; [done|].
    by rewrite lookup_insert_ne.
Qed.

Lemma store_leaves_other_datasets_alone_witness :
  _RETRIEVER_CACHE (CreditCardVectorStore.__init__ sample_env true (Some "new.csv")
                      (CreditCardVectorStore.__init__ sample_env false None new_process).2).2
    !! cache_key "cards.csv"
  = _RETRIEVER_CACHE (CreditCardVectorStore.__init__ sample_env false None new_process).2
      !! cache_key "cards.csv".
Proof.
  apply (store_leaves_other_datasets_alone sample_env true (Some "new.csv")
           (CreditCardVectorStore.__init__ sample_env false None new_process).2
           "cards.csv" 0).
  discriminate.
Defined.

(** X17. When the data file does not exist, a store that builds its
    retriever (forced, or nothing cached for the path) gets a retriever
    that answers every query with the empty table. *)
Theorem store_without_file_answers_empty `{L : Lexical} (env : Env) (force : bool)
    (p : option string) (σ : Process) (query : string) (bank : option string)
    (max_fee : option Z) (categories : option (list string)) (k : option Z) :
  files env !! resolve_path env p = None ->
  force = true \/ _RETRIEVER_CACHE σ !! cache_key (resolve_path env p) = None ->
  let built := CreditCardVectorStore.__init__ env force p σ in
  exists r, heap built.2 !! retriever built.1 = Some r
            /\ search r query bank max_fee categories k = empty_frame.
Proof.
  intros Hfile Hbuild built.
  exists (LocalRetriever.__init__ (Some empty_frame) 10). split; [|done].
  unfold built, CreditCardVectorStore.__init__. rewrite Hfile.
  destruct Hbuild as [->|Hnone]; simpl.
  - by rewrite lookup_insert_eq.
  - destruct force; simpl; [by rewrite lookup_insert_eq|].
    rewrite Hnone. simpl. by rewrite lookup_insert_eq.
Qed.

Lemma store_without_file_answers_empty_witness :
  exists r,
    heap (CreditCardVectorStore.__init__ sample_env true (Some "missing.csv")
            new_process).2
      !! retriever (CreditCardVectorStore.__init__ sample_env true (Some "missing.csv")
                      new_process).1 = Some r
    /\ search (L := overlap_lexical) r "cashback" None None None None = empty_frame.
Proof.
  apply (store_without_file_answers_empty (L := overlap_lexical) sample_env true
           (Some "missing.csv") new_process "cashback" None None None None).
  - reflexivity.
  - by left.
Defined.

(** ** The query router *)

Import QueryRouter.

Lemma lstrip_chars (s : string) :
  list_ascii_of_string (Py.lstrip s) = drop_blanks (list_ascii_of_string s).
Proof. induction s as [|c s IH]; simpl; [done|]. by destruct (Py.is_space c). Qed.

Lemma strip_chars_spec (s : string) :
  list_ascii_of_string (Py.strip s) = strip_chars (list_ascii_of_string s).
Proof.
  unfold Py.strip, Py.rstrip, Py.rev_string, strip_chars.
  by rewrite !list_ascii_of_string_of_list_ascii, !lstrip_chars,
             !list_ascii_of_string_of_list_ascii.
Qed.

Lemma drop_blanks_idempotent (l : list ascii) : drop_blanks (drop_blanks l) = drop_blanks l.
Proof.
  induction l as [|c l IH]; simpl; [done|].
  destruct (Py.is_space c) eqn:E; [done|]. simpl. by rewrite E.
Qed.

Lemma drop_blanks_snoc (l : list ascii) (c : ascii) :
  Py.is_space c = false -> exists w, drop_blanks (l ++ [c]) = w ++ [c].
Proof.
  intros Hc. induction l as [|x l IH]; simpl.
  - rewrite Hc. by exists [].
  - destruct (Py.is_space x); [done|]. by exists (x :: l).
Qed.

Lemma strip_chars_idempotent (l : list ascii) : strip_chars (strip_chars l) = strip_chars l.
Proof.
  unfold strip_chars.
  assert (Hhead : drop_blanks (rev (drop_blanks (rev (drop_blanks l))))
                  = rev (drop_blanks (rev (drop_blanks l)))).
  { destruct (drop_blanks l) as [|c t] eqn:E; [done|].
    assert (Hc : Py.is_space c = false).
    { clear -E. induction l as [|x l IH]; simpl in E; [done|].
      destruct (Py.is_space x) eqn:Ex; [auto|]. by injection E as <- _. }
    change (rev (c :: t)) with (rev t ++ [c]).
    destruct (drop_blanks_snoc (rev t) c Hc) as [w ->].
    rewrite rev_app_distr. simpl. by rewrite Hc. }
  rewrite Hhead, rev_involutive. by rewrite drop_blanks_idempotent.
Qed.

Lemma strip_idempotent (s : string) : Py.strip (Py.strip s) = Py.strip s.
Proof.
  assert (H : list_ascii_of_string (Py.strip (Py.strip s))
              = list_ascii_of_string (Py.strip s)).
  { rewrite (strip_chars_spec (Py.strip s)), (strip_chars_spec s).
    apply strip_chars_idempotent. }
  apply (f_equal string_of_list_ascii) in H.
  by rewrite !string_of_list_ascii_of_string in H.
Qed.

Lemma lower_chars (s : string) :
  list_ascii_of_string (Py.lower s) = map Py.lower_ascii (list_ascii_of_string s).
Proof. induction s as [|c s IH]; simpl; [done|]. by rewrite IH. Qed.

Lemma drop_blanks_lower (l : list ascii) :
  drop_blanks (map Py.lower_ascii l) = map Py.lower_ascii (drop_blanks l).
Proof.
  induction l as [|c l IH]; simpl; [done|].
  rewrite lower_ascii_space. by destruct (Py.is_space c).
Qed.

Lemma strip_lower (s : string) : Py.strip (Py.lower s) = Py.lower (Py.strip s).
Proof.
  assert (H : list_ascii_of_string (Py.strip (Py.lower s))
              = list_ascii_of_string (Py.lower (Py.strip s))).
  { rewrite (strip_chars_spec (Py.lower s)), (lower_chars (Py.strip s)),
            (lower_chars s), (strip_chars_spec s).
    unfold strip_chars.
    by rewrite drop_blanks_lower, <- map_rev, drop_blanks_lower, <- map_rev. }
  apply (f_equal string_of_list_ascii) in H.
  by rewrite !string_of_list_ascii_of_string in H.
Qed.

(** X18. [detect_intent] gives the same intent whatever the case of the
    letters and whatever blanks surround the query; [route_query] gives the
    same answer whatever the case of the letters. *)
Theorem router_ignores_case_and_outer_blanks (q : string) (vector_empty : bool) :
  detect_intent (Some (Py.lower q)) = detect_intent (Some q)
  /\ detect_intent (Some (Py.strip q)) = detect_intent (Some q)
  /\ route_query (Some (Py.lower q)) vector_empty = route_query (Some q) vector_empty.
Proof.
  unfold detect_intent, route_query. simpl default.
  by rewrite strip_lower, !lower_idempotent, strip_idempotent.
Qed.

(** ** The assistant object and its singleton *)

Lemma resolve_path_idempotent env p :
  resolve_path env (Some (resolve_path env p)) = resolve_path env p.
Proof.
  unfold resolve_path at 1.
  destruct (String.eqb_spec (resolve_path env p) "") as [E|E]; [|done].
  rewrite E. unfold resolve_path in E |- *.
  destruct p as [p|]; [|done]. by destruct (String.eqb_spec p "").
Qed.

Lemma init_set_k_10 (d : option DataFrame) :
  {| self_k := 10;
     self_df := self_df (LocalRetriever.__init__ d 10);
     self_bm25 := self_bm25 (LocalRetriever.__init__ d 10);
     self_corpus := self_corpus (LocalRetriever.__init__ d 10) |}
  = LocalRetriever.__init__ d 10.
Proof. unfold LocalRetriever.__init__. by destruct (negb (empty _)). Qed.

Lemma rag_init_unfold env force p σ :
  CreditCardRAG.__init__ env force p σ
  = let built := CreditCardVectorStore.__init__ env force
                   (Some (resolve_path env p)) σ in
    ({| CreditCardRAG.data :=
          CreditCardDataProcessor.__init__ env (Some (resolve_path env p));
        CreditCardRAG.vs := built.1;
        CreditCardRAG.retriever := retriever built.1 |},
     (as_retriever built.1 10 built.2).2).
Proof.
  unfold CreditCardRAG.__init__.
  by destruct (CreditCardVectorStore.__init__ env force (Some (resolve_path env p)) σ).
Qed.

(** X19. After [get_rag] with the force flag (what an upload does), the
    current assistant object queries a retriever built from the data file
    as it is now, with [k = 10], and the store's own table is that file's
    table. *)
Theorem forced_get_rag_serves_current_file (env : Env) (p : option string) (f : Csv)
    (st : Server.State) :
  files env !! resolve_path env p = Some f ->
  let rag := (Server.get_rag env true p st).1 in
  let st' := (Server.get_rag env true p st).2 in
  Server._RAG st' = Some rag
  /\ heap (Server.process st') !! CreditCardRAG.retriever rag
     = Some (LocalRetriever.__init__ (Some (fillna "" (read_csv f))) 10)
  /\ CreditCardVectorStore.df (CreditCardRAG.vs rag) = fillna "" (read_csv f)
  /\ CreditCardDataProcessor.get_df (CreditCardRAG.data rag) = fillna "" (read_csv f).
Proof.
  intros Hf rag st'.
  assert (Hget : Server.get_rag env true p st
                 = ((CreditCardRAG.__init__ env true p (Server.process st)).1,
                    {| Server.process := (CreditCardRAG.__init__ env true p
                                            (Server.process st)).2;
                       Server._RAG := Some (CreditCardRAG.__init__ env true p
                                              (Server.process st)).1 |})).
  { unfold Server.get_rag. simpl.
    destruct (Server._RAG st);
      by destruct (CreditCardRAG.__init__ env true p (Server.process st)). }
  unfold rag, st'. rewrite Hget. cbn [fst snd Server._RAG Server.process].
  rewrite rag_init_unfold. cbn zeta.
  cbn [fst snd CreditCardRAG.retriever CreditCardRAG.vs CreditCardRAG.data].
  split; [done|].
  unfold CreditCardVectorStore.__init__, CreditCardDataProcessor.__init__,
         CreditCardDataProcessor.get_df.
  rewrite resolve_path_idempotent, Hf.
  cbn [fst snd retriever heap as_retriever CreditCardVectorStore.df
       CreditCardDataProcessor.df].
  split; [|done].
  unfold as_retriever. cbn [fst snd retriever heap].
  rewrite lookup_alter_eq, lookup_insert_eq. cbn [fmap option_fmap option_map].
  f_equal. apply init_set_k_10.
Qed.

Lemma forced_get_rag_serves_current_file_witness :
  heap (Server.process (Server.get_rag sample_env true (Some "cards.csv") new_server).2)
    !! CreditCardRAG.retriever
         (Server.get_rag sample_env true (Some "cards.csv") new_server).1
  = Some (LocalRetriever.__init__ (Some (fillna "" (read_csv sample_cards))) 10).
Proof.
  apply (forced_get_rag_serves_current_file sample_env (Some "cards.csv") sample_cards
           new_server).
  reflexivity.
Defined.

Lemma init_keeps_k_10 env force p σ :
  (forall r obj, heap σ !! r = Some obj -> self_k obj = 10%Z) ->
  forall r obj, heap (CreditCardVectorStore.__init__ env force p σ).2 !! r = Some obj ->
                self_k obj = 10%Z.
Proof.
  intros Hk r obj. unfold CreditCardVectorStore.__init__.
  assert (Hnew : forall d, <[fresh (dom (heap σ)) := LocalRetriever.__init__ d 10]>
                             (heap σ) !! r = Some obj -> self_k obj = 10%Z).
  { intros d. rewrite lookup_insert. case_decide; [|apply Hk].
    intros [= <-]. unfold LocalRetriever.__init__. by destruct (negb (empty _)). }
  destruct force; simpl; [apply Hnew|].
  destruct (_RETRIEVER_CACHE σ !! _); simpl; [apply Hk|apply Hnew].
Qed.

Lemma rag_init_ok env force p σ :
  cache_live σ ->
  (forall r obj, heap σ !! r = Some obj -> self_k obj = 10%Z) ->
  let res := CreditCardRAG.__init__ env force p σ in
  cache_live res.2
  /\ (forall r obj, heap res.2 !! r = Some obj -> self_k obj = 10%Z)
  /\ is_Some (heap res.2 !! CreditCardRAG.retriever res.1).
Proof.
  intros Hlive Hk res. unfold res. rewrite rag_init_unfold. cbn zeta.
  cbn [fst snd CreditCardRAG.retriever].
  set (built := CreditCardVectorStore.__init__ env force (Some (resolve_path env p)) σ).
  split; [by apply as_retriever_cache_live, init_cache_live|].
  pose proof (init_retriever_live env force (Some (resolve_path env p)) σ Hlive) as Hr.
  fold built in Hr.
  unfold as_retriever. cbn [fst snd heap].
  split.
  - intros r obj. rewrite lookup_alter. case_decide as E.
    + destruct (heap built.2 !! retriever built.1); [|done]. simpl. by intros [= <-].
    + by apply init_keeps_k_10.
  - rewrite lookup_alter_eq. destruct Hr as [x ->]. simpl. eauto.
Qed.

(** X20. From a well-formed server state, [get_rag] leads to a well-formed
    state whose current assistant object is the one returned; the retriever
    it queries exists, has [k = 10], and so answers a query that gives no
    [k] with at most 10 records. *)
Theorem get_rag_keeps_server_ok `{L : Lexical} (env : Env) (force : bool)
    (p : option string) (st : Server.State) :
  server_ok st ->
  let rag := (Server.get_rag env force p st).1 in
  let st' := (Server.get_rag env force p st).2 in
  server_ok st'
  /\ Server._RAG st' = Some rag
  /\ exists r, heap (Server.process st') !! CreditCardRAG.retriever rag = Some r
               /\ self_k r = 10%Z
               /\ forall query bank max_fee categories,
                    length (rows (search r query bank max_fee categories None)) <= 10.
Proof.
  intros (Hlive & Hk & Hrag) rag st'.
  assert (Hgoal : server_ok st' /\ Server._RAG st' = Some rag).
  { unfold rag, st', Server.get_rag.
    set (fresh_rag := CreditCardRAG.__init__ env force p (Server.process st)).
    destruct (rag_init_ok env force p (Server.process st) Hlive Hk) as (H1 & H2 & H3).
    fold fresh_rag in H1, H2, H3.
    assert (Hnew : server_ok {| Server.process := fresh_rag.2;
                                Server._RAG := Some fresh_rag.1 |}).
    { split; [done|]. split; [done|]. by intros rag0 [= <-]. }
    destruct (Server._RAG st) as [old|] eqn:Eold.
    - destruct (force || _) eqn:E.
      + by destruct fresh_rag.
      + simpl. split; [|done]. split; [done|]. split; [done|].
        intros rag0 Hrag0. apply Hrag. by rewrite <- Hrag0.
    - by destruct fresh_rag. }
  destruct Hgoal as [Hok Hcur]. split; [done|]. split; [done|].
  destruct Hok as (_ & Hk' & Hrag').
  destruct (Hrag' rag Hcur) as [r Hr]. exists r. split; [done|].
  pose proof (Hk' _ _ Hr) as Hk10. split; [done|].
  intros query bank max_fee categories.
  destruct (ready r) eqn:Hready.
  - rewrite search_ready by done. unfold rank.
    change (rows (rename ?m ?d)) with (rows d).
    pose proof (head_length (effective_k r None)
                  (loc_list (candidate_base r bank max_fee categories)
                     (picked_labels (candidate_base r bank max_fee categories)
                        query bank (effective_k r None)))) as Hlen.
    unfold effective_k in *. rewrite Hk10 in *. lia.
  - rewrite search_not_ready by done. simpl. lia.
Qed.

Lemma new_server_ok : server_ok new_server.
Proof.
  split; [apply new_process_live|]. split.
  - intros r obj H. unfold new_server, new_process in H. cbn in H.
    by rewrite lookup_empty in H.
  - by intros rag [=].
Qed.

Lemma get_rag_keeps_server_ok_witness :
  server_ok (Server.get_rag sample_env false None new_server).2.
Proof.
  apply (get_rag_keeps_server_ok (L := overlap_lexical) sample_env false None
           new_server new_server_ok).
Defined.

(** ** Filtering twice, and letter case *)

Lemma filter_all {A} (p : A -> bool) (l : list A) :
  (forall x, In x l -> p x = true) -> List.filter p l = l.
Proof.
  induction l as [|x l IH]; intros H; simpl; [done|].
  rewrite (H x) by (by left). f_equal. apply IH. intros y Hy. apply H. by right.
Qed.

Lemma select_all (p : Series -> bool) (d : DataFrame) :
  (forall r, In r (rows d) -> p (combine (columns d) (snd r)) = true) ->
  select p d = d.
Proof.
  intros H. unfold select. rewrite filter_all by done. by destruct d.
Qed.

Lemma fee_step_all max_fee d :
  (forall r, In r (rows d) -> fee_ok d max_fee (snd r)) -> fee_step max_fee d = d.
Proof.
  intros H. unfold fee_step. destruct max_fee as [m|]; [|done].
  destruct (Z.eqb_spec m 0) as [|Hm]; [done|]. simpl.
  destruct (has_column (if has_column _ d then _ else _) d) eqn:E; [|done].
  apply select_all. intros r Hr. apply Z.leb_le.
  apply (H r Hr m); [done|done|]. unfold fee_field. by rewrite E.
Qed.

Lemma category_step_all cats d :
  rows d <> [] ->
  (forall r, In r (rows d) -> category_ok d cats (snd r)) -> category_step cats d = d.
Proof.
  intros Hne H. unfold category_step. destruct cats as [[|c cs]|]; try done.
  destruct (rows d) eqn:E; [done|]. rewrite <- E in H.
  apply select_all. intros r Hr. by apply (H r Hr).
Qed.

Lemma bank_step_no_rows bank d : rows d = [] -> bank_step bank d = d.
Proof.
  intros H. unfold bank_step. destruct bank as [b|]; [|done].
  destruct (negb _); [|done].
  rewrite empty_no_rows; [done|]. unfold select; simpl. by rewrite H.
Qed.

Lemma fee_step_no_rows max_fee d : rows d = [] -> fee_step max_fee d = d.
Proof.
  intros H. apply fee_step_all. intros r Hr. by rewrite H in Hr.
Qed.

Lemma bank_step_idempotent_on bank d d' :
  columns d' = columns d ->
  (forall r, In r (rows d') -> In r (rows (bank_step bank d))) ->
  bank_step bank d' = d'.
Proof.
  intros Hcols Hsub. unfold bank_step at 1.
  destruct bank as [b|]; [|done].
  destruct (String.eqb_spec b "") as [|Hb]; [done|]. cbn [negb].
  set (bm := fun r : Series => Py.contains (Py.lower b) (Py.lower (bank_of r))).
  destruct (empty (select bm d')) eqn:E; cbn [negb]; [done|].
  apply select_all. intros r Hr.
  (* a row of [d'] matches, so the bank step on [d] kept the matching rows only *)
  assert (Hcn : columns d <> []).
  { rewrite <- Hcols. unfold empty in E. cbn [columns select] in E.
    by destruct (columns d'). }
  pose proof (empty_false_rows _ E) as Hne.
  destruct (rows (select bm d')) as [|r0 l] eqn:Er; [done|].
  assert (Hr0 : In r0 (rows (select bm d'))) by (rewrite Er; by left).
  apply in_select in Hr0 as [Hin0 Hm0].
  assert (Hd0 : In r0 (rows (select bm d))).
  { apply in_select. split; [|by rewrite <- Hcols].
    pose proof (bank_step_rows (Some b) d) as Hs. apply sublist_subseteq in Hs.
    by apply list_elem_of_In, Hs, list_elem_of_In, Hsub. }
  assert (Es : empty (select bm d) = false).
  { unfold empty. cbn [columns select]. destruct (columns d); [done|].
    by destruct (rows (select bm d)). }
  specialize (Hsub r Hr). unfold bank_step in Hsub.
  destruct (String.eqb_spec b ""); [done|]. cbn [negb] in Hsub. fold bm in Hsub.
  rewrite Es in Hsub. cbn [negb] in Hsub.
  apply in_select in Hsub as [_ Hm]. by rewrite Hcols.
Qed.

(** X5. Filtering a table that the filter stage has already filtered, with
    the same bank, fee ceiling and categories, keeps the same rows; the
    table itself is unchanged when it has a row, or when no category is
    requested.  (A table the category filter has emptied loses its columns
    when the category filter reads it again.) *)
Theorem apply_filters_idempotent (d : DataFrame) (bank : option string)
    (max_fee : option Z) (categories : option (list string)) :
  let R := _apply_filters d bank max_fee categories in
  rows (_apply_filters R bank max_fee categories) = rows R
  /\ (rows R <> [] \/ categories = None \/ categories = Some [] ->
      _apply_filters R bank max_fee categories = R).
Proof.
  intros R.
  destruct (rows R) as [|r0 l] eqn:ER.
  { split.
    - pose proof (apply_filters_rows R bank max_fee categories) as Hs.
      rewrite ER in Hs. by apply sublist_nil_r in Hs.
    - intros [H|H]; [done|]. unfold _apply_filters at 1.
      rewrite bank_step_no_rows, fee_step_no_rows by done.
      by destruct H as [-> | ->]. }
  assert (Hne : rows R <> []) by (by rewrite ER).
  rewrite <- ER. clear r0 l ER.
  assert (Hcols : columns R = columns d) by (by apply apply_filters_columns).
  assert (Hin : forall r, In r (rows R) ->
            In r (rows (bank_step bank d))
            /\ fee_ok R max_fee (snd r) /\ category_ok R categories (snd r)).
  { intros r Hr. unfold R, _apply_filters in Hr.
    apply in_category_step in Hr as [Hr Hc]. apply in_fee_step in Hr as [Hr Hf].
    split; [done|]. split.
    - intros m x Hm Hm0 Hx. apply (Hf m x Hm Hm0).
      by rewrite (fee_field_same_columns (bank_step bank d) R) in Hx
        by (by rewrite Hcols, bank_step_columns).
    - intros c cs Hcs. specialize (Hc c cs Hcs).
      by rewrite fee_step_columns, bank_step_columns, <- Hcols in Hc. }
  assert (Heq : _apply_filters R bank max_fee categories = R).
  { unfold _apply_filters at 1.
    rewrite (bank_step_idempotent_on bank d R Hcols) by (intros r Hr; by apply Hin).
    rewrite fee_step_all by (intros r Hr; by apply Hin).
    apply category_step_all; [done|]. intros r Hr. by apply Hin. }
  split; [by rewrite Heq | done].
Qed.

Lemma apply_filters_idempotent_witness :
  let R := _apply_filters (self_df sample_retriever) (Some "hdfc") (Some 3000%Z)
             (Some ["travel"]) in
  rows R <> [] /\ _apply_filters R (Some "hdfc") (Some 3000%Z) (Some ["travel"]) = R.
Proof.
  pose proof (apply_filters_idempotent (self_df sample_retriever) (Some "hdfc")
                (Some 3000%Z) (Some ["travel"])) as [_ H].
  assert (Hne : rows (_apply_filters (self_df sample_retriever) (Some "hdfc")
                        (Some 3000%Z) (Some ["travel"])) <> [])
    by (vm_compute; discriminate).
  split; [exact Hne | exact (H (or_introl Hne))].
Defined.

(** The table changes the second time when the category filter has left
    no row: the columns are gone. *)
Example apply_filters_twice_drops_columns :
  let R := _apply_filters (self_df sample_retriever) None None (Some ["forex"]) in
  columns R = ["Card Name"; "Bank Name"; "Annual Fee"; "Key Benefits"; "Tags"]
  /\ rows R = []
  /\ columns (_apply_filters R None None (Some ["forex"])) = [].
Proof. vm_compute. done. Qed.

Section CaseBlind.
Context `{L : Lexical}.

Lemma lower_nonempty (b : string) : String.eqb (Py.lower b) "" = String.eqb b "".
Proof. by destruct b. Qed.

Lemma bank_step_lower b d : bank_step (Some (Py.lower b)) d = bank_step (Some b) d.
Proof. unfold bank_step. by rewrite lower_nonempty, lower_idempotent. Qed.

Lemma bank_bonus_lower b row : _bank_bonus (Some (Py.lower b)) row = _bank_bonus (Some b) row.
Proof. unfold _bank_bonus. by rewrite lower_nonempty, lower_idempotent. Qed.

Lemma map_lower_idempotent (l : list string) :
  map Py.lower (map Py.lower l) = map Py.lower l.
Proof. rewrite map_map. apply map_ext. apply lower_idempotent. Qed.

Lemma category_step_lower cats d :
  category_step (Some (map Py.lower cats)) d = category_step (Some cats) d.
Proof.
  unfold category_step. destruct cats as [|c cs]; [done|].
  cbn [map]. change (Py.lower (Py.lower c) :: map Py.lower (map Py.lower cs))
    with (map Py.lower (map Py.lower (c :: cs))).
  by rewrite map_lower_idempotent.
Qed.

Lemma tokenize_lower (query : string) : _tokenize (Py.lower query) = _tokenize query.
Proof. unfold _tokenize. by rewrite lower_idempotent. Qed.

Lemma score_rows_lower_query query bank base :
  score_rows (Py.lower query) bank base = score_rows query bank base.
Proof.
  unfold score_rows, _keyword_bonus.
  by rewrite tokenize_lower, lower_idempotent.
Qed.

End CaseBlind.

(** X21. [search] does not see the case of letters in the query, in the
    bank name or in the categories. *)
Theorem search_ignores_letter_case `{L : Lexical} (self : LocalRetriever.t)
    (query b : string) (cs : list string) (bank : option string) (max_fee : option Z)
    (categories : option (list string)) (k : option Z) :
  search self (Py.lower query) bank max_fee categories k
  = search self query bank max_fee categories k
  /\ search self query (Some (Py.lower b)) max_fee categories k
     = search self query (Some b) max_fee categories k
  /\ search self query bank max_fee (Some (map Py.lower cs)) k
     = search self query bank max_fee (Some cs) k.
Proof.
  destruct (ready self) eqn:Hready;
    [|by rewrite !search_not_ready by done].
  rewrite !search_ready by done. split; [|split].
  - unfold rank, picked_labels. by rewrite score_rows_lower_query.
  - assert (Hc : candidate_base self (Some (Py.lower b)) max_fee categories
                 = candidate_base self (Some b) max_fee categories).
    { unfold candidate_base, _apply_filters. by rewrite bank_step_lower. }
    rewrite Hc. apply rank_score_ext, score_rows_bank_ext.
    intros r _. apply bank_bonus_lower.
  - assert (Hc : candidate_base self bank max_fee (Some (map Py.lower cs))
                 = candidate_base self bank max_fee (Some cs)).
    { unfold candidate_base, _apply_filters. by rewrite category_step_lower. }
    by rewrite Hc.
Qed.

(** ** Column names of the result, and a negative [k] *)

Lemma canonical_never_title (c T s : string) :
  In (T, s) canonical_names -> renamed canonical_names c <> T.
Proof.
  intros HTs E. pose proof (canonical_not_title c T s HTs) as H.
  rewrite E, String.eqb_refl in H. done.
Qed.

(** X22. The result of [search] is in the canonical schema: none of its
    columns bears a Title-Case name of the data model, and renaming its
    columns once more changes nothing. *)
Theorem search_result_is_canonical `{L : Lexical} (self : LocalRetriever.t)
    (query : string) (bank : option string) (max_fee : option Z)
    (categories : option (list string)) (k : option Z) :
  (forall T s, In (T, s) canonical_names ->
     ~ In T (columns (search self query bank max_fee categories k)))
  /\ rename canonical_names (search self query bank max_fee categories k)
     = search self query bank max_fee categories k.
Proof.
  destruct (ready self) eqn:Hready.
  - rewrite search_ready by done. unfold rank. split.
    + intros T s HTs Hin. cbn [columns rename] in Hin.
      apply in_map_iff in Hin as (c & Hc & _).
      by apply (canonical_never_title c T s HTs).
    + unfold rename. cbn [columns rows]. f_equal.
      rewrite map_map. apply map_ext. intros c. apply canonical_idempotent.
  - rewrite search_not_ready by done. split; [|done]. by intros T s _ [].
Qed.

Section NegativeK.
Context `{L : Lexical}.

Lemma picked_labels_length base query bank k :
  (Z.of_nat (length (picked_labels base query bank k)) <= Py.max (k * 2) 12)%Z.
Proof. unfold picked_labels. apply diversify_length. unfold Py.max. simpl. lia. Qed.

End NegativeK.

(** X23. With a negative [k], a call of [search] whose candidate pool has a
    token returns the candidates the diversity loop picked without the last
    [-k] of them, in the loop's order: at most [12 + k] records, and none
    at all from [k = -12] down. *)
Theorem search_negative_k `{L : Lexical} (self : LocalRetriever.t)
    (query : string) (bank : option string) (max_fee : option Z)
    (categories : option (list string)) (k : Z) :
  ready self = true ->
  range_indexed (self_df self) ->
  has_token (corpus_of (candidate_base self bank max_fee categories)) = true ->
  (k < 0)%Z ->
  let picked := picked_labels (candidate_base self bank max_fee categories)
                  query bank k in
  exists d,
    search_outcome self query bank max_fee categories (Some k) = Some d
    /\ map fst (rows d) = take (length picked - Z.to_nat (- k)) picked
    /\ (Z.of_nat (length (rows d)) <= Z.max 0 (12 + k))%Z.
Proof.
  intros Hready Hrange Htok Hk picked.
  exists (search self query bank max_fee categories (Some k)).
  split; [by apply search_outcome_ready|].
  rewrite search_ready by done. unfold effective_k.
  destruct (Z.eqb_spec k 0); [lia|].
  set (base := candidate_base self bank max_fee categories) in *.
  assert (Hnd : NoDup (map fst (rows base))) by by apply candidate_base_NoDup.
  assert (Hlab : map fst (rows (loc_list base picked)) = picked).
  { apply loc_list_labels; [done|]. apply picked_labels_in_base. }
  assert (Hlen : length (rows (loc_list base picked)) = length picked).
  { by rewrite <- (length_map fst), Hlab. }
  assert (E : map fst (rows (rank base query bank k))
              = take (length picked - Z.to_nat (- k)) picked).
  { unfold rank. change (rows (rename ?m ?d)) with (rows d).
    unfold head. cbn [rows]. destruct (Z.leb_spec 0 k); [lia|].
    fold picked. by rewrite <- firstn_map, Hlab, Hlen. }
  split; [done|].
  rewrite <- (length_map fst), E, length_take.
  pose proof (picked_labels_length base query bank k) as Hp.
  fold picked in Hp. unfold Py.max in Hp. lia.
Qed.

Lemma search_negative_k_witness :
  exists d,
    search_outcome (L := overlap_lexical) sample_retriever "card"
      None None None (Some (-1)%Z) = Some d
    /\ map fst (rows d) = [0].
Proof.
  destruct (search_negative_k (L := overlap_lexical) sample_retriever "card"
              None None None (-1) eq_refl eq_refl eq_refl) as (d & Hd & Hl & _); [lia|].
  exists d. split; [exact Hd | exact Hl].
Defined.

(** ** Calls that raise *)

Section Built.
Context `{L : Lexical}.

Lemma init_corpus df k corpus :
  self_bm25 (LocalRetriever.__init__ df k) = Some corpus ->
  corpus = corpus_of (self_df (LocalRetriever.__init__ df k)).
Proof.
  unfold LocalRetriever.__init__, corpus_of.
  destruct (negb (empty _)); [|done]. cbn [self_bm25 self_df].
  intros [= <-]. by rewrite map_map.
Qed.

Lemma search_outcome_whole_table self query bank max_fee cats k :
  (ready self = true -> has_token (corpus_of (self_df self)) = true) ->
  candidate_base self bank max_fee cats = self_df self ->
  search_outcome self query bank max_fee cats k
  = Some (search self query bank max_fee cats k).
Proof.
  intros Htok Hbase. destruct (ready self) eqn:Hready.
  - apply search_outcome_ready; [done|]. rewrite Hbase. by apply Htok.
  - unfold search_outcome, search. by rewrite Hready.
Qed.

End Built.

(** X24. A retriever whose construction raised nothing answers without
    raising every query that ranks its whole table: a query without
    filters, and a query whose filters leave no row. *)
Theorem built_retriever_answers_on_whole_table `{L : Lexical} (df : option DataFrame)
    (k0 : Z) (self : LocalRetriever.t) (query : string) (bank : option string)
    (max_fee : option Z) (categories : option (list string)) (k : option Z) :
  LocalRetriever.init_outcome df k0 = Some self ->
  search_outcome self query None None None k = Some (search self query None None None k)
  /\ (empty (_apply_filters (self_df self) bank max_fee categories) = true ->
      search_outcome self query bank max_fee categories k
      = Some (search self query bank max_fee categories k)).
Proof.
  unfold LocalRetriever.init_outcome. intros Hinit.
  assert (Htok : ready self = true -> has_token (corpus_of (self_df self)) = true).
  { intros Hready.
    destruct (self_bm25 (LocalRetriever.__init__ df k0)) as [corpus|] eqn:Eb.
    - destruct (has_token corpus) eqn:Et; [|done]. injection Hinit as <-.
      by rewrite <- (init_corpus df k0 corpus Eb).
    - injection Hinit as <-. unfold ready in Hready. rewrite Eb in Hready.
      by rewrite orb_true_r in Hready. }
  split.
  - apply search_outcome_whole_table; [done|].
    unfold candidate_base, _apply_filters. cbn [bank_step fee_step category_step].
    by destruct (empty (self_df self)).
  - intros He. apply search_outcome_whole_table; [done|].
    unfold candidate_base. by rewrite He.
Qed.

Lemma built_retriever_answers_on_whole_table_witness :
  search_outcome (L := overlap_lexical) sample_retriever "cashback" None None None None
  = Some (search (L := overlap_lexical) sample_retriever "cashback" None None None None).
Proof.
  exact (proj1 (built_retriever_answers_on_whole_table (L := overlap_lexical)
                  (Some (read_csv sample_cards)) 10 sample_retriever "cashback"
                  None None None None eq_refl)).
Defined.

(** When the construction of a store raises nothing, its result is the one
    [__init__] describes. *)
Lemma store_init_outcome_returns env force data_path σ out :
  CreditCardVectorStore.init_outcome env force data_path σ = Some out ->
  out = CreditCardVectorStore.__init__ env force data_path σ.
Proof.
  unfold CreditCardVectorStore.init_outcome.
  destruct (CreditCardVectorStore.files env !! _) as [f|]; [|congruence].
  destruct (parsable f); [|done].
  destruct (if force then None else _) as [r|]; [congruence|].
  destruct (LocalRetriever.init_outcome _ _); [congruence|done].
Qed.

(** The store of the sample file is built without raising; on a file that
    has no column [pd.read_csv] raises, and on the table whose rows have
    no text the retriever does. *)
Example store_construction_outcomes :
  CreditCardVectorStore.init_outcome sample_env false None new_process
  = Some (CreditCardVectorStore.__init__ sample_env false None new_process)
  /\ CreditCardVectorStore.init_outcome
       {| CreditCardVectorStore.CREDIT_CARD_DATA_PATH := None;
          CreditCardVectorStore.files :=
            {[ "credit_cards_dataset.csv" := {| header := []; records := [] |} ]} |}
       false None new_process = None
  /\ LocalRetriever.init_outcome
       (Some {| columns := ["Annual Fee"]; rows := [(0, [Some "500"])] |}) 10 = None.
Proof. split; [reflexivity|]. split; reflexivity. Qed.
